(** * dbutils.helpers: bulk attachment of related records

    A shallow embedding of [dbutils/helpers.py].  Python objects live in a
    heap indexed by object identity; every helper is a computation over
    that heap which either returns or raises, and which keeps the heap it
    had reached when it raises.  The object-relational layer the helpers
    call into (managers, [filter], [using], [select_related]) is modelled
    by a table of rows per model and a log of the queries evaluated. *)

From Stdlib Require Import ZArith Lia Ascii.
From stdpp Require Import base option list gmap strings.

Local Open Scope string_scope.
Local Open Scope list_scope.
Local Open Scope stdpp_scope.

(** ** Python values *)

(** Object identity. *)
Abbreviation ref := nat (only parsing).

Inductive pyval :=
| VNone
| VBool (b : bool)
| VInt (z : Z)
| VStr (s : string)
| VObj (r : ref)
| VList (us : list ref).

(** The attribute dictionary of an object, and the heap of objects. *)
Abbreviation obj := (gmap string pyval) (only parsing).
Abbreviation heap_t := (gmap nat (gmap string pyval)) (only parsing).

(** [a == b].  Booleans compare as the integers 0 and 1; objects without
    an [__eq__] of their own compare by identity. *)
Definition py_eqb (a b : pyval) : bool :=
  match a, b with
  | VNone, VNone => true
  | VBool x, VBool y => Bool.eqb x y
  | VBool x, VInt z | VInt z, VBool x => (Z.b2z x =? z)%Z
  | VInt x, VInt y => (x =? y)%Z
  | VStr x, VStr y => String.eqb x y
  | VObj x, VObj y => Nat.eqb x y
  | VList x, VList y => bool_decide (x = y)
  | _, _ => false
  end.

(** [v is False]: identity with the singleton [False]. *)
Definition is_False (v : pyval) : bool :=
  match v with
  | VBool false => true
  | _ => false
  end.

(** Truth value of a list: non-empty. *)
Definition truthy {A} (l : list A) : bool :=
  match l with
  | [] => false
  | _ :: _ => true
  end.

(** ** Exceptions and outcomes *)

Record ModelClass := Model { app_label : string; model_name : string }.

Inductive exn :=
| AttributeError (target : pyval) (attr : string)
| ValueError (m1 m2 : ModelClass)
| FieldError (lookup : string)
| ImportError
| ImproperlyConfigured
| SiteProfileNotAvailable.

Inductive outcome (A : Type) :=
| Return (a : A)
| Raise (e : exn).
Arguments Return {A} a.
Arguments Raise {A} e.

Definition outcome_bind {A B} (f : A → outcome B) (m : outcome A) : outcome B :=
  match m with
  | Return a => f a
  | Raise e => Raise e
  end.

#[global] Instance outcome_mret : MRet outcome := @Return.
#[global] Instance outcome_mbind : MBind outcome := @outcome_bind.

(** ** Dictionaries

    A [dict] keeps its entries in insertion order and finds a key with
    [==], so it is an association list searched with [py_eqb]. *)
Abbreviation dict := (list (pyval * pyval)) (only parsing).

Fixpoint dict_lookup (d : dict) (k : pyval) : option pyval :=
  match d with
  | [] => None
  | (k', v) :: d' => if py_eqb k' k then Some v else dict_lookup d' k
  end.

(** [d.get(k)]: the value, or [None]. *)
Definition dict_get (d : dict) (k : pyval) : pyval :=
  default VNone (dict_lookup d k).

(** [d.setdefault(k, v)]: inserts only when [k] is absent. *)
Definition dict_setdefault (d : dict) (k v : pyval) : dict :=
  match dict_lookup d k with
  | Some _ => d
  | None => d ++ [(k, v)]
  end.

(** [d[k] = v]: replaces the value of a present key in place. *)
Fixpoint dict_set (d : dict) (k v : pyval) : dict :=
  match d with
  | [] => [(k, v)]
  | (k', v') :: d' =>
      if py_eqb k' k then (k', v) :: d' else (k', v') :: dict_set d' k v
  end.

(** [d[k].append(u)] on a [defaultdict(list)]. *)
Definition dict_append (d : dict) (k : pyval) (u : ref) : dict :=
  match dict_lookup d k with
  | Some (VList us) => dict_set d k (VList (us ++ [u]))
  | _ => dict_set d k (VList [u])
  end.

(** ** Attribute access on the heap *)

(** The attribute [name] of the object [r], when both exist. *)
Definition attr (h : heap_t) (r : ref) (name : string) : option pyval :=
  h !! r ≫= (.!! name).

(** [getattr(o, name)] *)
Definition getattr (h : heap_t) (o : pyval) (name : string) : outcome pyval :=
  match o with
  | VObj r =>
      match attr h r name with
      | Some v => Return v
      | None => Raise (AttributeError o name)
      end
  | _ => Raise (AttributeError o name)
  end.

(** [getattr(o, name, dflt)] *)
Definition getattr_default (h : heap_t) (o : pyval) (name : string)
    (dflt : pyval) : pyval :=
  match getattr h o name with
  | Return v => v
  | Raise _ => dflt
  end.

(** ** [queryset_to_dict] and [distinct] *)

Fixpoint queryset_to_dict_singular (h : heap_t) (qs : list ref) (key : string)
    (result : dict) : outcome dict :=
  match qs with
  | [] => Return result
  | u :: qs' =>
      k ← getattr h (VObj u) key;
      queryset_to_dict_singular h qs' key (dict_setdefault result k (VObj u))
  end.

Fixpoint queryset_to_dict_plural (h : heap_t) (qs : list ref) (key : string)
    (result : dict) : outcome dict :=
  match qs with
  | [] => Return result
  | u :: qs' =>
      k ← getattr h (VObj u) key;
      queryset_to_dict_plural h qs' key (dict_append result k u)
  end.

Definition queryset_to_dict (h : heap_t) (qs : list ref) (key : string)
    (singular : bool) : outcome dict :=
  if singular then queryset_to_dict_singular h qs key []
  else queryset_to_dict_plural h qs key [].

(** [list(set(l))].  The order of a set is not specified; this keeps the
    first occurrence of every value, and the helpers only test the result
    for emptiness and hand it to an [__in] filter. *)
Fixpoint distinct (l : list pyval) : list pyval :=
  match l with
  | [] => []
  | v :: l' => v :: filter (λ w, py_eqb v w = false) (distinct l')
  end.

(** ** Interpreter state and the computation monad *)

(** A query as the data source receives it:
    [model.objects.filter(<lookup>__in=values).using(alias)], with the
    names given to [select_related] when there are any. *)
Record query := Query {
  q_model : ModelClass;
  q_lookup : string;
  q_values : list pyval;
  q_using : string;
  q_related : list string
}.

Record state := State {
  heap : heap_t;
  next_ref : ref;            (* identity of the next object created *)
  queries : list query       (* queries evaluated so far, oldest first *)
}.

(** A computation runs from a state to an outcome and the state reached;
    a raised exception keeps the mutations made before it. *)
Definition M (A : Type) : Type := state → outcome A * state.

Definition M_ret {A} (a : A) : M A := λ s, (Return a, s).

Definition M_bind {A B} (f : A → M B) (m : M A) : M B :=
  λ s, match m s with
       | (Return a, s') => f a s'
       | (Raise e, s') => (Raise e, s')
       end.

#[global] Instance M_mret : MRet M := @M_ret.
#[global] Instance M_mbind : MBind M := @M_bind.

Definition raise {A} (e : exn) : M A := λ s, (Raise e, s).

(** Run a computation that only reads the heap. *)
Definition reading {A} (f : heap_t → outcome A) : M A :=
  λ s, (f (heap s), s).

(** [setattr(o, name, v)] *)
Definition setattr (o : pyval) (name : string) (v : pyval) : M unit :=
  λ s, match o with
       | VObj r =>
           match heap s !! r with
           | Some attrs =>
               (Return (),
                State (<[r := <[name := v]> attrs]> (heap s))
                      (next_ref s) (queries s))
           | None => (Raise (AttributeError o name), s)
           end
       | _ => (Raise (AttributeError o name), s)
       end.

(** ** The object-relational layer *)

(** A foreign-key (or one-to-one) field: [name], [column], [rel.to] and
    [model]. *)
Record Field := {
  f_name : string;
  f_column : string;
  f_rel_to : ModelClass;
  f_model : ModelClass
}.

(** What [attach_foreignkey] is handed: the descriptor of a forward
    foreign key ([Post.thread], which has [.field]) or the descriptor of
    the reverse side of a one-to-one ([User.profile], which has
    [.cache_name] and [.related.field]). *)
Inductive descriptor :=
| ReverseSingleRelatedObjectDescriptor (field : Field)
| SingleRelatedObjectDescriptor (cache_name : string) (related_field : Field).

(** What the head of [attach_foreignkey] reads off the descriptor:
    [accessor], [model], [lookup], [column] and [key]. *)
Record relation := {
  r_accessor : string;
  r_model : ModelClass;
  r_lookup : string;
  r_column : string;
  r_key : string
}.

(** [_<name>_cache] *)
Definition cache_attr (field : Field) : string :=
  "_" +:+ f_name field +:+ "_cache".

Definition resolve (field : descriptor) : relation :=
  match field with
  | ReverseSingleRelatedObjectDescriptor field =>
      (* not is_foreignkey *)
      {| r_accessor := cache_attr field;
         r_model := f_rel_to field;
         r_lookup := "pk";
         r_column := f_column field;
         r_key := "pk" |}
  | SingleRelatedObjectDescriptor cache_name field =>
      {| r_accessor := cache_name;
         r_model := f_model field;
         r_lookup := f_name field;
         r_column := "pk";
         r_key := f_column field |}
  end.

(** The data source: per connection alias and model, the fields of the
    model and the rows of its table in result order, each row as the
    attributes of the instance built from it when the query asks for the
    given [select_related] relations. *)
Record database := {
  db_fields : ModelClass → list Field;
  db_rows : string → ModelClass → list string → list obj
}.

(** The attribute a [filter] lookup name compares: [pk] itself, or the
    column of the field of that name, when the model has one. *)
Definition lookup_attname (fields : list Field) (lookup : string)
    : option string :=
  if String.eqb lookup "pk" then Some "pk"
  else f_column <$> find (λ f, String.eqb (f_name f) lookup) fields.

(** [x IN (values)]: never true of a null. *)
Definition sql_in (x : option pyval) (values : list pyval) : bool :=
  match x with
  | None | Some VNone => false
  | Some v => existsb (py_eqb v) values
  end.

Definition row_selected (db : database) (q : query) (row : obj) : bool :=
  match lookup_attname (db_fields db (q_model q)) (q_lookup q) with
  | Some attname => sql_in (row !! attname) (q_values q)
  | None => false
  end.

(** The rows a query returns. *)
Definition selected_rows (db : database) (q : query) : list obj :=
  filter (λ row, row_selected db q row)
         (db_rows db (q_using q) (q_model q) (q_related q)).

(** Instances built from rows are new objects. *)
Fixpoint instantiate (rows : list obj) (h : heap_t) (n : ref)
    : list ref * heap_t * ref :=
  match rows with
  | [] => ([], h, n)
  | row :: rows' =>
      let '(us, h', n') := instantiate rows' (<[n := row]> h) (S n) in
      (n :: us, h', n')
  end.

(** Evaluating a queryset: a lookup the model does not know is refused;
    an [__in] filter on no value at all is answered with no row, without
    reaching the data source; otherwise one query reaches it. *)
Definition evaluate (db : database) (q : query) : M (list ref) :=
  λ s,
    match lookup_attname (db_fields db (q_model q)) (q_lookup q) with
    | None => (Raise (FieldError (q_lookup q)), s)
    | Some _ =>
        if negb (truthy (q_values q)) then (Return [], s)
        else
          let '(us, h', n') :=
            instantiate (selected_rows db q) (heap s) (next_ref s) in
          (Return us, State h' n' (queries s ++ [q]))
    end.

#[global] Instance model_eq_dec : EqDecision ModelClass.
Proof. solve_decision. Defined.

(** ** Settings *)

Record Settings := { AUTH_PROFILE_MODULE : option string }.

(** [s.split(sep)] for a one-character separator. *)
Fixpoint str_split (sep : Ascii.ascii) (s : string) : list string :=
  match s with
  | EmptyString => [EmptyString]
  | String c s' =>
      if Ascii.eqb c sep then EmptyString :: str_split sep s'
      else match str_split sep s' with
           | [] => [String c EmptyString]
           | w :: ws => String c w :: ws
           end
  end.

(** ** The helpers *)

Section Helpers.

Context (db : database).
Context (settings : Settings).
(** [models.get_model(app_label, model_name)] *)
Context (get_model : string → string → outcome (option ModelClass)).

(** The generator handed to [distinct]:
    [getattr(o, column) for o in objects
       if (related or getattr(o, accessor, False) is False)]. *)
Fixpoint scan (h : heap_t) (objects : list ref) (related : list string)
    (accessor column : string) : outcome (list pyval) :=
  match objects with
  | [] => Return []
  | o :: objects' =>
      if truthy related
         || is_False (getattr_default h (VObj o) accessor (VBool false))
      then
        v ← getattr h (VObj o) column;
        vs ← scan h objects' related accessor column;
        Return (v :: vs)
      else scan h objects' related accessor column
  end.

(** [for o in objects:
       setattr(o, accessor, queryset.get(getattr(o, column)))]. *)
Fixpoint attach_pass (queryset : dict) (objects : list ref)
    (accessor column : string) : M unit :=
  match objects with
  | [] => mret ()
  | o :: objects' =>
      v ← reading (λ h, getattr h (VObj o) column);
      setattr (VObj o) accessor (dict_get queryset v);;
      attach_pass queryset objects' accessor column
  end.

Definition attach_foreignkey (objects : list ref) (field : descriptor)
    (related : list string) (database : string) : M unit :=
  let rel := resolve field in
  values ← reading (λ h,
    vs ← scan h objects related (r_accessor rel) (r_column rel);
    Return (distinct vs));
  if negb (truthy values) then mret ()
  else
    qs ← evaluate db
           (Query (r_model rel) (r_lookup rel) values database related);
    queryset ← reading (λ h, queryset_to_dict h qs (r_key rel) true);
    attach_pass queryset objects (r_accessor rel) (r_column rel).

(** [values.update(new)] on a set. *)
Definition set_update (values new : list pyval) : list pyval :=
  distinct (values ++ new).

(** The first loop of [attach_foreignkeys].  Each element of
    [object_sets] pairs a collection with a forward foreign-key
    descriptor, given here by its [.field]. *)
Fixpoint collect (h : heap_t) (object_sets : list (list ref * Field))
    (related : list string) (model : option ModelClass)
    (values : list pyval) : outcome (option ModelClass * list pyval) :=
  match object_sets with
  | [] => Return (model, values)
  | (objects, field) :: object_sets' =>
      model' ← match model with
               | None => Return (Some (f_rel_to field))
               | Some m =>
                   if decide (m ≠ f_rel_to field)
                   then Raise (ValueError m (f_rel_to field))
                   else Return (Some m)
               end;
      vs ← scan h objects related (cache_attr field) (f_column field);
      collect h object_sets' related model'
              (set_update values (distinct vs))
  end.

(** The second loop of [attach_foreignkeys]. *)
Fixpoint attach_sets (queryset : dict)
    (object_sets : list (list ref * Field)) : M unit :=
  match object_sets with
  | [] => mret ()
  | (objects, field) :: object_sets' =>
      attach_pass queryset objects (cache_attr field) (f_column field);;
      attach_sets queryset object_sets'
  end.

Definition attach_foreignkeys (object_sets : list (list ref * Field))
    (related : list string) (database : string) : M unit :=
  '(model, values) ← reading (λ h, collect h object_sets related None []);
  if negb (truthy values) then mret ()
  else
    match model with
    | None => raise (AttributeError VNone "objects")
    | Some model =>
        qs ← evaluate db (Query model "pk" values database related);
        queryset ← reading (λ h, queryset_to_dict h qs "pk" true);
        attach_sets queryset object_sets
    end.

(** The profile model named by the settings, as the first part of
    [attach_profile] resolves it. *)
Definition profile_model : outcome ModelClass :=
  match AUTH_PROFILE_MODULE settings with
  | None | Some "" => Raise SiteProfileNotAvailable
  | Some s =>
      match str_split "."%char s with
      | [app_label; model_name] =>
          match get_model app_label model_name with
          | Return (Some model) => Return model
          | Return None => Raise SiteProfileNotAvailable
          | Raise ImportError | Raise ImproperlyConfigured =>
              Raise SiteProfileNotAvailable
          | Raise e => Raise e
          end
      | _ => Raise SiteProfileNotAvailable
      end
  end.

(** [[u.pk for u in users]] *)
Fixpoint pk_list (h : heap_t) (users : list ref) : outcome (list pyval) :=
  match users with
  | [] => Return []
  | u :: users' =>
      pk ← getattr h (VObj u) "pk";
      pks ← pk_list h users';
      Return (pk :: pks)
  end.

(** [for u in users:
       u._profile_cache = profiles.get(u.pk)
       u._profile_cache.user = u].
    The second assignment is kept as the attribute [user] of the record,
    which is what reading [record.user] gives afterwards; whatever else
    the relation descriptor of a profile model does to the record on
    this assignment is not modelled, and the statements on
    [attach_profile] say nothing of the other attributes it may write. *)
Fixpoint profile_pass (profiles : dict) (users : list ref) : M unit :=
  match users with
  | [] => mret ()
  | u :: users' =>
      pk ← reading (λ h, getattr h (VObj u) "pk");
      setattr (VObj u) "_profile_cache" (dict_get profiles pk);;
      p ← reading (λ h, getattr h (VObj u) "_profile_cache");
      setattr p "user" (VObj u);;
      profile_pass profiles users'
  end.

Definition attach_profile (users : list ref) : M (list ref) :=
  model ← reading (λ _, profile_model);
  pks ← reading (λ h, pk_list h users);
  qs ← evaluate db (Query model "pk" (distinct pks) "default" []);
  profiles ← reading (λ h, queryset_to_dict h qs "pk" true);
  profile_pass profiles users;;
  mret users.

End Helpers.

(** ** Vocabulary of the statements *)

(** Every live object is older than the next identity handed out. *)
Definition state_wf (s : state) : Prop :=
  ∀ r, is_Some (heap s !! r) → r < next_ref s.

(** The record [u] has the attribute [key], and its value [== k]. *)
Definition has_key (h : heap_t) (key : string) (k : pyval) (u : ref) : bool :=
  match attr h u key with
  | Some k' => py_eqb k' k
  | None => false
  end.

(** The row is a related record for the foreign-key value [v]: its [key]
    attribute is not null and [== v]. *)
Definition row_matches (key : string) (v : pyval) (row : obj) : bool :=
  sql_in (row !! key) [v].

(** The attribute has a value in the row, [== v] (null included). *)
Definition row_has_key (key : string) (v : pyval) (row : obj) : bool :=
  match row !! key with
  | Some k => py_eqb k v
  | None => false
  end.

(** The filter of the batched query compares the attribute the lookup
    table is keyed by.  It holds of every forward descriptor, and of a
    one-to-one descriptor whose field the data source knows. *)
Definition descriptor_ok (db : database) (field : descriptor) : Prop :=
  lookup_attname (db_fields db (r_model (resolve field)))
                 (r_lookup (resolve field)) = Some (r_key (resolve field)).

(** The user has a primary key, and the table of the profile model has a
    row for it. *)
Definition has_profile (db : database) (model : ModelClass) (h : heap_t)
    (x : ref) : bool :=
  match attr h x "pk" with
  | Some pk => existsb (row_matches "pk" pk) (db_rows db "default" model [])
  | None => false
  end.

(** The cache attribute exists and is not the value [False]. *)
Definition already_cached (h : heap_t) (accessor : string) (o : ref) : Prop :=
  ∃ v, attr h o accessor = Some v ∧ v ≠ VBool false.

(** The one query [attach_foreignkey] issues when the scan found [vs]. *)
Definition fetch_query (field : descriptor) (related : list string)
    (database : string) (vs : list pyval) : query :=
  Query (r_model (resolve field)) (r_lookup (resolve field)) (distinct vs)
        database related.

#[global] Instance pyval_eq_dec : EqDecision pyval.
Proof. solve_decision. Defined.

#[global] Instance already_cached_dec h accessor o :
  Decision (already_cached h accessor o).
Proof.
  unfold already_cached. destruct (attr h o accessor) as [v|].
  - destruct (decide (v = VBool false)) as [->|Hv].
    + right. intros (w & [= <-] & Hw). done.
    + left. eauto.
  - right. intros (w & [=] & _).
Defined.

(** No two elements of the list are [==]. *)
Fixpoint all_different (l : list pyval) : Prop :=
  match l with
  | [] => True
  | v :: l' => existsb (py_eqb v) l' = false ∧ all_different l'
  end.

(** Dictionary keys up to [==]. *)
Definition key_norm (v : pyval) : pyval :=
  match v with
  | VBool b => VInt (Z.b2z b)
  | _ => v
  end.

(** Occurrences of the character [c] in [s]. *)
Fixpoint count_char (c : Ascii.ascii) (s : string) : nat :=
  match s with
  | EmptyString => 0
  | String c' s' => (if Ascii.eqb c' c then 1 else 0) + count_char c s'
  end.

(** ** A small forum, for the examples *)

Definition Thread : ModelClass := Model "forum" "Thread".
Definition Post : ModelClass := Model "forum" "Post".
Definition Comment : ModelClass := Model "forum" "Comment".
Definition User : ModelClass := Model "auth" "User".
Definition Profile : ModelClass := Model "accounts" "Profile".

(** [Post.thread] and [Comment.author]. *)
Definition thread_field : Field :=
  {| f_name := "thread"; f_column := "thread_id";
     f_rel_to := Thread; f_model := Post |}.
Definition author_field : Field :=
  {| f_name := "author"; f_column := "author_id";
     f_rel_to := User; f_model := Comment |}.

(** [Profile.user], the one-to-one field behind [User.profile]. *)
Definition profile_user_field : Field :=
  {| f_name := "user"; f_column := "user_id";
     f_rel_to := User; f_model := Profile |}.

Definition Post_thread : descriptor :=
  ReverseSingleRelatedObjectDescriptor thread_field.
Definition User_profile : descriptor :=
  SingleRelatedObjectDescriptor "_profile_cache" profile_user_field.

Definition titled (pk : Z) (title : string) : obj :=
  {[ "pk" := VInt pk; "title" := VStr title ]}.

(** Threads 1 and 2, and the profile of user 1. *)
Definition forum_db : database :=
  {| db_fields := λ m,
       if decide (m = Profile) then [profile_user_field] else [];
     db_rows := λ _ m _,
       if decide (m = Thread) then [titled 1 "news"; titled 2 "help"]
       else if decide (m = Profile)
            then [<["user_id" := VInt 1]> (titled 1 "ann")]
       else [] |}.

Definition post (pk thread_id : Z) : obj :=
  {[ "pk" := VInt pk; "thread_id" := VInt thread_id ]}.

(** Three posts, none with a cached thread. *)
Definition plain_posts : state :=
  State {[ 0 := post 10 1; 1 := post 11 2; 2 := post 12 3 ]} 3 [].

(** Post 0 already holds thread 1 (object 2); post 1 has no thread yet. *)
Definition cached_posts : state :=
  State {[ 0 := <["_thread_cache" := VObj 2]> (post 10 1);
           1 := post 11 2;
           2 := titled 1 "news" ]} 3 [].

(** Post 0 holds a thread (object 1) whose row is gone from the table. *)
Definition stale_posts : state :=
  State {[ 0 := <["_thread_cache" := VObj 1]> (post 10 9);
           1 := titled 9 "gone" ]} 2 [].

(** Two posts and a comment, which points at a user. *)
Definition posts_and_comment : state :=
  State {[ 0 := post 10 1; 1 := post 11 2;
           2 := {[ "pk" := VInt 30; "author_id" := VInt 4 ]} ]} 3 [].

(** Two records with the same key. *)
Definition twins : heap_t :=
  {[ 0 := titled 7 "first"; 1 := titled 7 "second"; 2 := titled 8 "other" ]}.

(** The second record has no [pk]. *)
Definition keyless : heap_t :=
  {[ 0 := titled 7 "first"; 1 := {[ "title" := VStr "draft" ]};
     2 := titled 8 "other" ]}.

(** Post 1 has lost its [thread_id]. *)
Definition broken_posts : state :=
  State {[ 0 := post 10 1; 1 := {[ "pk" := VInt 11 ]} ]} 2 [].

(** Posts 0 and 2 point at thread 1, post 1 at no thread. *)
Definition shared_posts : state :=
  State {[ 0 := post 10 1;
           1 := {[ "pk" := VInt 11; "thread_id" := VNone ]};
           2 := post 12 1 ]} 3 [].

(** User 0 has a profile, user 1 has none. *)
Definition two_users : state :=
  State {[ 0 := {[ "pk" := VInt 1 ]}; 1 := {[ "pk" := VInt 5 ]} ]} 2 [].

Definition forum_settings : Settings :=
  {| AUTH_PROFILE_MODULE := Some "accounts.Profile" |}.

Definition forum_get_model (app_label model_name : string)
    : outcome (option ModelClass) :=
  Return (Some (Model app_label model_name)).

(** ** Tactics for the examples *)

(** Split a hypothesis [x ∈ [a; b; ...]] into its cases. *)
Ltac members H :=
  repeat (apply elem_of_cons in H as [->|H]);
  try (apply elem_of_nil in H; destruct H).

(** Close a goal about concrete data by evaluation. *)
Ltac evaluated := vm_compute; first [reflexivity | eauto | discriminate].

(** ** Equality of values and dictionary lookups *)

Lemma py_eqb_norm a b : py_eqb a b = true ↔ key_norm a = key_norm b.
Proof.
  destruct a as [|x| | | |], b as [|y| | | |]; unfold py_eqb, key_norm;
    rewrite ?Z.eqb_eq, ?String.eqb_eq, ?Nat.eqb_eq, ?bool_decide_eq_true;
    try (split; intros H; congruence).
  destruct x, y; simpl; split; intros H; congruence.
Qed.

Lemma py_eqb_refl a : py_eqb a a = true.
Proof. by apply py_eqb_norm. Qed.

Lemma py_eqb_compat_r a b c : py_eqb a b = true → py_eqb c a = py_eqb c b.
Proof.
  intros Hab%py_eqb_norm. apply eq_true_iff_eq.
  rewrite !py_eqb_norm. split; congruence.
Qed.

Lemma dict_lookup_app d1 d2 k :
  dict_lookup (d1 ++ d2) k =
  match dict_lookup d1 k with
  | Some v => Some v
  | None => dict_lookup d2 k
  end.
Proof.
  induction d1 as [|[k' v'] d1 IH]; simpl; [done|].
  by destruct (py_eqb k' k).
Qed.

Lemma dict_lookup_compat d a b :
  py_eqb a b = true → dict_lookup d a = dict_lookup d b.
Proof.
  intros Hab. induction d as [|[k' v'] d IH]; simpl; [done|].
  by rewrite (py_eqb_compat_r a b k' Hab), IH.
Qed.

Lemma dict_lookup_setdefault d k v k0 :
  dict_lookup (dict_setdefault d k v) k0 =
  match dict_lookup d k0 with
  | Some w => Some w
  | None => if py_eqb k k0 then Some v else None
  end.
Proof.
  unfold dict_setdefault.
  destruct (dict_lookup d k) as [w|] eqn:Hk.
  - destruct (dict_lookup d k0) as [w0|] eqn:Hk0; [done|].
    destruct (py_eqb k k0) eqn:Heq; [|done].
    rewrite (dict_lookup_compat d k k0 Heq) in Hk. congruence.
  - rewrite dict_lookup_app. simpl. by destruct (dict_lookup d k0).
Qed.

Lemma getattr_obj h u name :
  getattr h (VObj u) name =
  match attr h u name with
  | Some v => Return v
  | None => Raise (AttributeError (VObj u) name)
  end.
Proof. done. Qed.

(** What the singular loop leaves in [result]: the entries it started
    with win, then the first record of the rest of the input. *)
Lemma queryset_to_dict_singular_lookup h qs key result :
  (∀ u, u ∈ qs → is_Some (attr h u key)) →
  ∃ d, queryset_to_dict_singular h qs key result = Return d ∧
       ∀ k, dict_lookup d k =
            match dict_lookup result k with
            | Some v => Some v
            | None => VObj <$> List.find (has_key h key k) qs
            end.
Proof.
  revert result. induction qs as [|u qs IH]; intros result Hall.
  - exists result. split; [done|]. intros k. simpl.
    by destruct (dict_lookup result k).
  - destruct (Hall u) as [ku Hku]; [left|].
    destruct (IH (dict_setdefault result ku (VObj u))) as (d & Hd & Hlk).
    { intros u' Hu'. apply Hall. by right. }
    exists d. split.
    { cbn [queryset_to_dict_singular]. rewrite getattr_obj, Hku. exact Hd. }
    intros k. rewrite Hlk, dict_lookup_setdefault.
    destruct (dict_lookup result k) as [w|]; [done|].
    cbn [List.find]. unfold has_key at 2. rewrite Hku.
    by destruct (py_eqb ku k).
Qed.

(** ** Stepping through computations *)

Lemma M_bind_run {A B} (f : A → M B) (m : M A) s :
  (m ≫= f) s =
  match m s with
  | (Return a, s') => f a s'
  | (Raise e, s') => (Raise e, s')
  end.
Proof. done. Qed.

Lemma outcome_bind_Return {A B} (f : A → outcome B) a :
  (Return a ≫= f) = f a.
Proof. done. Qed.

Lemma reading_run {A} (f : heap_t → outcome A) s :
  reading f s = (f (heap s), s).
Proof. done. Qed.

Lemma attr_Some_heap h r a v :
  attr h r a = Some v → ∃ attrs, h !! r = Some attrs ∧ attrs !! a = Some v.
Proof.
  unfold attr. destruct (h !! r) as [attrs|]; simpl; [|done]. eauto.
Qed.

Lemma attr_insert (h : heap_t) o attrs name v r a :
  h !! o = Some attrs →
  attr (<[o := <[name := v]> attrs]> h) r a =
  if decide (r = o ∧ a = name) then Some v else attr h r a.
Proof.
  intros Ho. unfold attr. destruct (decide (r = o)) as [->|Hne].
  - rewrite lookup_insert_eq, Ho. simpl.
    destruct (decide (a = name)) as [->|Hna].
    + rewrite decide_True by done. apply lookup_insert_eq.
    + rewrite decide_False by tauto. by apply lookup_insert_ne.
  - rewrite decide_False by tauto. by rewrite lookup_insert_ne.
Qed.

Lemma setattr_run o name v s attrs :
  heap s !! o = Some attrs →
  setattr (VObj o) name v s =
  (Return (),
   State (<[o := <[name := v]> attrs]> (heap s)) (next_ref s) (queries s)).
Proof. intros Ho. unfold setattr. by rewrite Ho. Qed.

(** ** Query evaluation *)

Lemma instantiate_spec rows (h : heap_t) n :
  ∃ h', instantiate rows h n = (seq n (length rows), h', n + length rows) ∧
        (∀ r, r < n → h' !! r = h !! r) ∧
        (∀ i row, rows !! i = Some row → h' !! (n + i) = Some row) ∧
        (∀ r, is_Some (h' !! r) →
              is_Some (h !! r) ∨ n ≤ r < n + length rows).
Proof.
  revert h n. induction rows as [|row rows IH]; intros h n.
  - exists h. simpl. rewrite Nat.add_0_r. repeat split; try done. by left.
  - destruct (IH (<[n := row]> h) (S n)) as (h' & Hrun & Hold & Hnew & Hdom).
    exists h'. cbn [instantiate]. rewrite Hrun. cbn [length seq].
    replace (S n + length rows) with (n + S (length rows)) by lia.
    split; [done|]. split; [|split].
    + intros r Hr. rewrite Hold by lia. apply lookup_insert_ne. lia.
    + intros [|i] row' Hi; simpl in Hi.
      * injection Hi as <-. rewrite Nat.add_0_r, Hold by lia.
        apply lookup_insert_eq.
      * replace (n + S i) with (S n + i) by lia. by apply Hnew.
    + intros r Hr. destruct (Hdom r Hr) as [Hin|Hin]; [|right; lia].
      destruct (decide (r = n)) as [->|Hne]; [right; lia|].
      left. by rewrite lookup_insert_ne in Hin.
Qed.

Lemma evaluate_spec db q s :
  state_wf s →
  is_Some (lookup_attname (db_fields db (q_model q)) (q_lookup q)) →
  q_values q ≠ [] →
  ∃ s', evaluate db q s =
          (Return (seq (next_ref s) (length (selected_rows db q))), s') ∧
        queries s' = queries s ++ [q] ∧
        next_ref s' = next_ref s + length (selected_rows db q) ∧
        state_wf s' ∧
        (∀ r, r < next_ref s → heap s' !! r = heap s !! r) ∧
        (∀ i row, selected_rows db q !! i = Some row →
                  heap s' !! (next_ref s + i) = Some row).
Proof.
  intros Hwf [attname Hattname] Hvalues.
  assert (Hv : negb (truthy (q_values q)) = false)
    by (by destruct (q_values q)).
  destruct (instantiate_spec (selected_rows db q) (heap s) (next_ref s))
    as (h' & Hrun & Hold & Hnew & Hdom).
  exists (State h' (next_ref s + length (selected_rows db q))
                (queries s ++ [q])).
  unfold evaluate. rewrite Hattname, Hv, Hrun. simpl.
  repeat split; try done.
  intros r Hr. simpl. destruct (Hdom r Hr) as [Hin|Hin]; [|lia].
  specialize (Hwf r Hin). lia.
Qed.

(** ** The attach pass *)

Lemma attach_pass_spec d objects accessor column s :
  accessor ≠ column →
  (∀ o, o ∈ objects → is_Some (attr (heap s) o column)) →
  ∃ s', attach_pass d objects accessor column s = (Return (), s') ∧
        next_ref s' = next_ref s ∧
        queries s' = queries s ∧
        (∀ r, r ∉ objects → heap s' !! r = heap s !! r) ∧
        (∀ r a, r ∉ objects ∨ a ≠ accessor →
                attr (heap s') r a = attr (heap s) r a) ∧
        (∀ o v, o ∈ objects → attr (heap s) o column = Some v →
                attr (heap s') o accessor = Some (dict_get d v)).
Proof.
  intros Hne. revert s.
  induction objects as [|o objects IH]; intros s Hcols.
  - exists s. repeat split; try done. intros o v Ho. by apply elem_of_nil in Ho.
  - destruct (Hcols o) as [v Hv]; [left|].
    destruct (attr_Some_heap _ _ _ _ Hv) as (attrs & Ho & _).
    set (s1 := State (<[o := <[accessor := dict_get d v]> attrs]> (heap s))
                     (next_ref s) (queries s)).
    assert (Hattr1 : ∀ r a, attr (heap s1) r a =
              if decide (r = o ∧ a = accessor) then Some (dict_get d v)
              else attr (heap s) r a).
    { intros r a. by apply attr_insert. }
    destruct (IH s1) as (s' & Hrun & Hnext & Hq & Hdom & Hframe & Hset).
    { intros o' Ho'. rewrite Hattr1, decide_False by (intros [_ ?]; congruence).
      apply Hcols. by right. }
    exists s'. split; [|split; [done|split; [done|split; [|split]]]].
    + cbn [attach_pass]. rewrite M_bind_run, reading_run, getattr_obj, Hv.
      rewrite M_bind_run, (setattr_run _ _ _ _ _ Ho). exact Hrun.
    + intros r Hr. apply not_elem_of_cons in Hr as [Hro Hr].
      rewrite Hdom by done. simpl. by apply lookup_insert_ne.
    + intros r a Hra. rewrite Hframe.
      * rewrite Hattr1, decide_False; [done|].
        intros [-> ->]. destruct Hra as [Hr|Ha]; [|done]. apply Hr. left.
      * destruct Hra as [Hr|Ha]; [left|by right].
        intros Hin. apply Hr. by right.
    + intros o' v' Ho' Hv'.
      destruct (decide (o' ∈ objects)) as [Hin|Hnin].
      * apply Hset; [done|].
        rewrite Hattr1, decide_False by (intros [_ ?]; congruence). done.
      * apply elem_of_cons in Ho' as [->|?]; [|done].
        rewrite Hframe by (by left). rewrite Hattr1, decide_True by done.
        congruence.
Qed.

(** ** The scan *)

Lemma is_False_cached h accessor o :
  is_False (getattr_default h (VObj o) accessor (VBool false)) = true ↔
  ¬ already_cached h accessor o.
Proof.
  unfold getattr_default, already_cached. rewrite getattr_obj.
  destruct (attr h o accessor) as [v|]; simpl.
  - split.
    + intros Hv (w & [= <-] & Hw). by destruct v as [|[]| | | |].
    + intros Hn. destruct v as [|[]| | | |]; try done;
        exfalso; apply Hn; eexists; (split; [done|done]).
  - split; [|done]. intros _ (w & [=] & _).
Qed.

Lemma scan_spec h objects related accessor column :
  (∀ o, o ∈ objects → is_Some (attr h o column)) →
  scan h objects related accessor column =
  Return (omap (λ o, attr h o column)
               (filter (λ o, related ≠ [] ∨ ¬ already_cached h accessor o)
                       objects)).
Proof.
  induction objects as [|o objects IH]; intros Hcols; [done|].
  cbn [scan]. rewrite IH by (intros o' Ho'; apply Hcols; by right).
  destruct (Hcols o) as [v Hv]; [left|].
  destruct (truthy related
            || is_False (getattr_default h (VObj o) accessor (VBool false)))
    eqn:Hcond.
  - rewrite filter_cons_True.
    + rewrite getattr_obj, Hv. simpl. by rewrite Hv.
    + apply orb_true_iff in Hcond as [Hrel|Hf].
      * left. by destruct related.
      * right. by apply is_False_cached.
  - rewrite filter_cons_False; [done|].
    apply orb_false_iff in Hcond as [Hrel Hf].
    intros [Hr|Hc].
    + by destruct related.
    + apply is_False_cached in Hc. congruence.
Qed.

(** ** Distinct values *)

Lemma existsb_distinct k vs :
  existsb (py_eqb k) (distinct vs) = existsb (py_eqb k) vs.
Proof.
  induction vs as [|v vs IH]; [done|]. cbn [distinct existsb].
  rewrite <- IH. destruct (py_eqb k v) eqn:Hkv; [done|]. simpl.
  generalize (distinct vs). intros l.
  induction l as [|w l IHl]; [done|].
  destruct (py_eqb v w) eqn:Hvw.
  - rewrite filter_cons_False by (by rewrite Hvw). cbn [existsb].
    rewrite <- (py_eqb_compat_r v w k Hvw), Hkv. done.
  - rewrite filter_cons_True by done. cbn [existsb]. by rewrite IHl.
Qed.

Lemma existsb_filter_false (P : pyval → Prop) `{!∀ w, Decision (P w)} k l :
  existsb (py_eqb k) l = false → existsb (py_eqb k) (filter P l) = false.
Proof.
  induction l as [|w l IH]; [done|]. cbn [existsb].
  intros [Hw Hl]%orb_false_iff. destruct (decide (P w)).
  - rewrite filter_cons_True by done. cbn [existsb]. by rewrite Hw, IH.
  - rewrite filter_cons_False by done. by apply IH.
Qed.

Lemma all_different_filter (P : pyval → Prop) `{!∀ w, Decision (P w)} l :
  all_different l → all_different (filter P l).
Proof.
  induction l as [|w l IH]; [done|]. intros [Hw Hl].
  destruct (decide (P w)).
  - rewrite filter_cons_True by done. split; [|by apply IH].
    by apply existsb_filter_false.
  - rewrite filter_cons_False by done. by apply IH.
Qed.

Lemma distinct_all_different vs : all_different (distinct vs).
Proof.
  induction vs as [|v vs IH]; [done|]. cbn [distinct]. split.
  - generalize (distinct vs). intros l.
    induction l as [|w l IHl]; [done|].
    destruct (py_eqb v w) eqn:Hvw.
    + by rewrite filter_cons_False by (by rewrite Hvw).
    + rewrite filter_cons_True by done. cbn [existsb]. by rewrite Hvw, IHl.
  - by apply all_different_filter.
Qed.

(** ** The lookup table of a batched fetch *)

Lemma sql_in_Some x values :
  sql_in x values = true →
  ∃ k, x = Some k ∧ k ≠ VNone ∧ existsb (py_eqb k) values = true.
Proof.
  destruct x as [k|]; [|done]. intros H. exists k.
  destruct k; try done; repeat split; done.
Qed.

Lemma list_find_step {A} (P : A → Prop) `{!∀ x, Decision (P x)} x l :
  list_find P (x :: l) =
  if decide (P x) then Some (0, x) else prod_map S id <$> list_find P l.
Proof. done. Qed.

Lemma find_instances (h : heap_t) key k rows n :
  (∀ i row, rows !! i = Some row → h !! (n + i) = Some row) →
  List.find (has_key h key k) (seq n (length rows)) =
  (λ ir, n + ir.1) <$> list_find (λ row, row_has_key key k row) rows.
Proof.
  revert n. induction rows as [|row rows IH]; intros n Hrows; [done|].
  cbn [length seq List.find]. rewrite list_find_step.
  assert (Hk : has_key h key k n = row_has_key key k row).
  { unfold has_key, row_has_key, attr.
    rewrite <- (Nat.add_0_r n) at 1. by rewrite (Hrows 0 row). }
  rewrite Hk. destruct (row_has_key key k row) eqn:Hrk.
  - rewrite decide_True by done. simpl. f_equal. lia.
  - rewrite decide_False by (intros []).
    rewrite IH.
    + destruct (list_find _ rows) as [[i x]|]; simpl; [|done]. f_equal. lia.
    + intros i row' Hi. replace (S n + i) with (n + S i) by lia.
      by apply Hrows.
Qed.

Lemma list_find_filter_first {A} (P Q R : A → Prop)
    `{!∀ x, Decision (P x), !∀ x, Decision (Q x), !∀ x, Decision (R x)}
    (l : list A) j x :
  (∀ y, R y → Q y) →
  (∀ y, Q y → (P y ↔ R y)) →
  list_find R l = Some (j, x) →
  ∃ i, list_find P (filter Q l) = Some (i, x).
Proof.
  intros HRQ HPR. revert j.
  induction l as [|y l IH]; intros j; [done|].
  rewrite list_find_step. destruct (decide (R y)) as [Hy|Hy].
  - intros [= <- <-]. exists 0.
    rewrite filter_cons_True by auto. rewrite list_find_step.
    rewrite decide_True; [done|]. apply HPR; auto.
  - destruct (list_find R l) as [[j' x']|] eqn:Hfind; [|done].
    intros [= <- <-]. destruct (IH j' eq_refl) as [i Hi].
    destruct (decide (Q y)) as [HQ|HQ].
    + rewrite filter_cons_True by done. rewrite list_find_step.
      rewrite decide_False by (rewrite HPR; done). rewrite Hi.
      by exists (S i).
    + rewrite filter_cons_False by done. by exists i.
Qed.

Lemma selected_rows_keyed db q key row :
  lookup_attname (db_fields db (q_model q)) (q_lookup q) = Some key →
  row ∈ selected_rows db q →
  ∃ k, row !! key = Some k ∧ k ≠ VNone ∧
       existsb (py_eqb k) (q_values q) = true.
Proof.
  intros Hkey Hin. unfold selected_rows in Hin.
  apply list_elem_of_filter in Hin as [Hsel _].
  unfold row_selected in Hsel. rewrite Hkey in Hsel.
  by apply sql_in_Some, Is_true_true.
Qed.

Lemma row_has_key_matches key v row k :
  row !! key = Some k → k ≠ VNone →
  row_matches key v row = row_has_key key v row.
Proof.
  intros Hk Hnn. unfold row_matches, row_has_key, sql_in. rewrite Hk.
  destruct k; try done; simpl; apply orb_false_r.
Qed.

(** A value without a matching row finds nothing among the rows fetched. *)
Lemma no_match_selected db q key v :
  lookup_attname (db_fields db (q_model q)) (q_lookup q) = Some key →
  (∀ row, row ∈ db_rows db (q_using q) (q_model q) (q_related q) →
          row_matches key v row = false) →
  list_find (λ row, row_has_key key v row) (selected_rows db q) = None.
Proof.
  intros Hkey Hnone. apply list_find_None, Forall_forall.
  intros row Hrow Hhas.
  destruct (selected_rows_keyed db q key row Hkey Hrow)
    as (k & Hk & Hnn & _).
  apply list_elem_of_filter in Hrow as [_ Hrow].
  specialize (Hnone row Hrow).
  rewrite (row_has_key_matches _ _ _ _ Hk Hnn) in Hnone.
  rewrite Hnone in Hhas. exact Hhas.
Qed.

(** The first row of the table that matches a requested value is the
    first one with that key among the rows fetched. *)
Lemma first_match_selected db q key v j row :
  lookup_attname (db_fields db (q_model q)) (q_lookup q) = Some key →
  existsb (py_eqb v) (q_values q) = true →
  list_find (λ row, row_matches key v row)
            (db_rows db (q_using q) (q_model q) (q_related q))
    = Some (j, row) →
  ∃ i, list_find (λ row, row_has_key key v row) (selected_rows db q)
       = Some (i, row).
Proof.
  intros Hkey Hv Hfind. unfold selected_rows.
  eapply (list_find_filter_first _ _ _ _ j row); [| |exact Hfind].
  - intros y Hy. unfold row_selected. rewrite Hkey.
    apply Is_true_true in Hy. apply Is_true_true.
    unfold row_matches in Hy.
    destruct (sql_in_Some _ _ Hy) as (k & Hk & Hnn & Hex).
    rewrite Hk. cbn [existsb] in Hex. rewrite orb_false_r in Hex.
    apply existsb_exists in Hv as (w & Hw & Hvw).
    assert (Hkw : existsb (py_eqb k) (q_values q) = true).
    { apply existsb_exists. exists w. split; [done|].
      by rewrite <- (py_eqb_compat_r v w k Hvw). }
    destruct k; try done; exact Hkw.
  - intros y Hy. unfold row_selected in Hy. rewrite Hkey in Hy.
    apply Is_true_true in Hy.
    destruct (sql_in_Some _ _ Hy) as (k & Hk & Hnn & _).
    by rewrite (row_has_key_matches _ v _ _ Hk Hnn).
Qed.

(** Evaluating a query and keying its result: the instances are new
    objects, the objects that were there are untouched, and the table
    holds, for every value, the first fetched row with that key. *)
Lemma fetch_table db q key s :
  state_wf s →
  lookup_attname (db_fields db (q_model q)) (q_lookup q) = Some key →
  q_values q ≠ [] →
  ∃ qs s1 d,
    evaluate db q s = (Return qs, s1) ∧
    queryset_to_dict (heap s1) qs key true = Return d ∧
    queries s1 = queries s ++ [q] ∧
    (∀ r, r < next_ref s → heap s1 !! r = heap s !! r) ∧
    (∀ v, match list_find (λ row, row_has_key key v row)
                  (selected_rows db q) with
          | Some (i, row) =>
              dict_get d v = VObj (next_ref s + i) ∧
              heap s1 !! (next_ref s + i) = Some row
          | None => dict_get d v = VNone
          end).
Proof.
  intros Hwf Hkey Hvalues.
  destruct (evaluate_spec db q s Hwf)
    as (s1 & Hev & Hq1 & Hn1 & Hwf1 & Hold & Hnew);
    [by rewrite Hkey|done|].
  destruct (queryset_to_dict_singular_lookup (heap s1)
              (seq (next_ref s) (length (selected_rows db q))) key [])
    as (d & Hd & Hlk).
  { intros u Hu. apply elem_of_seq in Hu.
    destruct (lookup_lt_is_Some_2 (selected_rows db q) (u - next_ref s))
      as [row Hrow]; [lia|].
    destruct (selected_rows_keyed db q key row Hkey) as (k & Hk & _).
    { by eapply list_elem_of_lookup_2. }
    exists k. unfold attr.
    replace u with (next_ref s + (u - next_ref s)) by lia.
    by rewrite (Hnew _ _ Hrow). }
  eexists _, s1, d. split; [exact Hev|]. split; [exact Hd|].
  split; [exact Hq1|]. split; [exact Hold|].
  intros v. unfold dict_get. rewrite Hlk. cbn [dict_lookup].
  rewrite (find_instances _ _ _ _ _ Hnew).
  destruct (list_find _ (selected_rows db q)) as [[i row]|] eqn:Hfind;
    [|done].
  split; [done|].
  apply list_find_Some in Hfind as (Hi & _ & _). by apply Hnew.
Qed.

Lemma live_below s r a :
  state_wf s → is_Some (attr (heap s) r a) → r < next_ref s.
Proof.
  intros Hwf [v Hv]. apply Hwf.
  apply attr_Some_heap in Hv as (attrs & -> & _). eauto.
Qed.

(** ** [attach_foreignkey] when it fetches *)

Lemma attach_foreignkey_fetch db objects field related database s vs :
  state_wf s →
  descriptor_ok db field →
  r_accessor (resolve field) ≠ r_column (resolve field) →
  (∀ o, o ∈ objects →
        is_Some (attr (heap s) o (r_column (resolve field)))) →
  scan (heap s) objects related (r_accessor (resolve field))
       (r_column (resolve field)) = Return vs →
  vs ≠ [] →
  ∃ s', attach_foreignkey db objects field related database s
          = (Return (), s') ∧
        queries s' = queries s ++ [fetch_query field related database vs] ∧
        (∀ r a, r < next_ref s →
                r ∉ objects ∨ a ≠ r_accessor (resolve field) →
                attr (heap s') r a = attr (heap s) r a) ∧
        (∀ o v, o ∈ objects →
                attr (heap s) o (r_column (resolve field)) = Some v →
                match list_find
                        (λ row, row_has_key (r_key (resolve field)) v row)
                        (selected_rows db
                           (fetch_query field related database vs)) with
                | Some (i, row) =>
                    attr (heap s') o (r_accessor (resolve field))
                      = Some (VObj (next_ref s + i)) ∧
                    heap s' !! (next_ref s + i) = Some row
                | None =>
                    attr (heap s') o (r_accessor (resolve field)) = Some VNone
                end).
Proof.
  intros Hwf Hok Hne Hcols Hscan Hvs.
  set (q := fetch_query field related database vs).
  destruct (fetch_table db q (r_key (resolve field)) s Hwf Hok)
    as (qs & s1 & d & Hev & Hd & Hq1 & Hold & Htable).
  { cbn [q fetch_query q_values]. by destruct vs. }
  assert (Hattr1 : ∀ r a, r < next_ref s →
            attr (heap s1) r a = attr (heap s) r a).
  { intros r a Hr. unfold attr. by rewrite Hold. }
  destruct (attach_pass_spec d objects (r_accessor (resolve field))
              (r_column (resolve field)) s1 Hne)
    as (s' & Hrun & Hn' & Hq' & Hheap & Hframe & Hset).
  { intros o Ho. rewrite Hattr1 by eauto using live_below. by apply Hcols. }
  exists s'. split; [|split; [|split]].
  - unfold attach_foreignkey. cbv zeta.
    rewrite M_bind_run, reading_run, Hscan, outcome_bind_Return.
    replace (negb (truthy (distinct vs))) with false by (by destruct vs).
    change (Query _ _ (distinct vs) database related) with q.
    by rewrite M_bind_run, Hev, M_bind_run, reading_run, Hd.
  - by rewrite Hq', Hq1.
  - intros r a Hr Hra. rewrite Hframe by done. by apply Hattr1.
  - intros o v Ho Hv. specialize (Htable v).
    rewrite (Hset o v) by (done || rewrite Hattr1; eauto using live_below).
    destruct (list_find _ (selected_rows db q)) as [[i row]|]; [|by f_equal].
    destruct Htable as [-> Hrow]. split; [done|].
    rewrite Hheap; [done|].
    intros Hin. assert (next_ref s + i < next_ref s); [|lia].
    eauto using live_below.
Qed.

Lemma descriptor_ok_forward db field :
  descriptor_ok db (ReverseSingleRelatedObjectDescriptor field).
Proof. done. Qed.

Lemma state_wf_decide s :
  bool_decide (map_Forall (λ r _, r < next_ref s) (heap s)) = true →
  state_wf s.
Proof.
  intros H%bool_decide_eq_true r [attrs Hr]. exact (H r attrs Hr).
Qed.

(** * [queryset_to_dict] *)

(** C5: with [singular=True], [queryset_to_dict] maps each key to the
    first record of the input that has this key; later records with the
    same key are neither merged in nor substituted for it.  An empty input
    gives an empty mapping. *)
Theorem queryset_to_dict_singular_first h qs key :
  (∀ u, u ∈ qs → is_Some (attr h u key)) →
  (∃ d, queryset_to_dict h qs key true = Return d ∧
        ∀ k, dict_lookup d k = VObj <$> List.find (has_key h key k) qs) ∧
  queryset_to_dict h [] key true = Return [].
Proof.
  intros Hkeys. split; [|done].
  destruct (queryset_to_dict_singular_lookup h qs key [] Hkeys)
    as (d & Hd & Hlk).
  exists d. split; [exact Hd|]. intros k. by rewrite Hlk.
Qed.

Lemma queryset_to_dict_singular_first_witness :
  (∃ d, queryset_to_dict twins [0; 1; 2] "pk" true = Return d ∧
        ∀ k, dict_lookup d k
             = VObj <$> List.find (has_key twins "pk" k) [0; 1; 2]) ∧
  queryset_to_dict twins [] "pk" true = Return [].
Proof.
  apply (queryset_to_dict_singular_first twins [0; 1; 2] "pk").
  intros u Hu. members Hu; evaluated.
Defined.

(** C6, as the code has it: when several records of the input share a
    key, the singular mapping holds the first of them; the records that
    follow never replace it. *)
Theorem queryset_to_dict_duplicate_keeps_first h pre u post key k :
  (∀ x, x ∈ pre ++ u :: post → is_Some (attr h x key)) →
  (∀ x, x ∈ pre → has_key h key k x = false) →
  has_key h key k u = true →
  ∃ d, queryset_to_dict h (pre ++ u :: post) key true = Return d ∧
       dict_lookup d k = Some (VObj u).
Proof.
  intros Hkeys Hpre Hu.
  destruct (queryset_to_dict_singular_lookup h _ key [] Hkeys)
    as (d & Hd & Hlk).
  exists d. split; [exact Hd|]. rewrite Hlk. cbn [dict_lookup].
  clear Hd Hlk Hkeys. induction pre as [|x pre IH]; cbn [app List.find].
  - by rewrite Hu.
  - rewrite (Hpre x) by left. apply IH. intros y Hy. apply Hpre. by right.
Qed.

Lemma queryset_to_dict_duplicate_keeps_first_witness :
  ∃ d, queryset_to_dict twins ([] ++ 0 :: [1; 2]) "pk" true = Return d ∧
       dict_lookup d (VInt 7) = Some (VObj 0).
Proof.
  apply (queryset_to_dict_duplicate_keeps_first twins [] 0 [1; 2] "pk").
  - intros x Hx. simpl in Hx. members Hx; evaluated.
  - intros x Hx. members Hx.
  - reflexivity.
Defined.

(** C6, as stated, fails: records 0 and 1 both have key 7, record 1 is
    seen last, and the mapping holds record 0. *)
Lemma queryset_to_dict_not_last_seen :
  has_key twins "pk" (VInt 7) 0 = true ∧
  has_key twins "pk" (VInt 7) 1 = true ∧
  ∃ d, queryset_to_dict twins [0; 1] "pk" true = Return d ∧
       dict_lookup d (VInt 7) = Some (VObj 0) ∧
       dict_lookup d (VInt 7) ≠ Some (VObj 1).
Proof.
  split; [reflexivity|]. split; [reflexivity|].
  exists [(VInt 7, VObj 0)]. split; [reflexivity|]. split; [reflexivity|].
  discriminate.
Qed.

(** * [attach_foreignkey] *)

(** C8: when the scan yields no foreign-key value, [attach_foreignkey]
    returns at once: no query reaches the data source and no object is
    touched.  This is so in particular for an empty collection. *)
Theorem attach_foreignkey_empty_values_noop
    db objects field related database s vs :
  scan (heap s) objects related (r_accessor (resolve field))
       (r_column (resolve field)) = Return vs →
  distinct vs = [] →
  attach_foreignkey db objects field related database s = (Return (), s) ∧
  attach_foreignkey db [] field related database s = (Return (), s).
Proof.
  intros Hscan Hvs. split.
  - unfold attach_foreignkey. cbv zeta.
    rewrite M_bind_run, reading_run, Hscan.
    cbn [mbind outcome_mbind outcome_bind]. by rewrite Hvs.
  - done.
Qed.

Lemma attach_foreignkey_empty_values_noop_witness :
  attach_foreignkey forum_db [0] Post_thread [] "default" stale_posts
    = (Return (), stale_posts) ∧
  attach_foreignkey forum_db [] Post_thread [] "default" stale_posts
    = (Return (), stale_posts).
Proof.
  apply (attach_foreignkey_empty_values_noop
           forum_db [0] Post_thread [] "default" stale_posts []);
    reflexivity.
Defined.

(** C10: without [related], the scan leaves out exactly the owners whose
    cache attribute exists and is not [False]; the values of the others
    make up the key set of the query.  An owner whose attribute holds
    [None] counts as cached. *)
Theorem scan_skips_already_cached db objects field database s :
  state_wf s →
  descriptor_ok db field →
  r_accessor (resolve field) ≠ r_column (resolve field) →
  (∀ o, o ∈ objects →
        is_Some (attr (heap s) o (r_column (resolve field)))) →
  let vs := omap (λ o, attr (heap s) o (r_column (resolve field)))
                 (filter (λ o, ¬ already_cached (heap s)
                                   (r_accessor (resolve field)) o)
                         objects) in
  scan (heap s) objects [] (r_accessor (resolve field))
       (r_column (resolve field)) = Return vs ∧
  (vs ≠ [] →
   ∃ s', attach_foreignkey db objects field [] database s = (Return (), s') ∧
         queries s' = queries s ++ [fetch_query field [] database vs]) ∧
  (∀ o, attr (heap s) o (r_accessor (resolve field)) = Some VNone →
        already_cached (heap s) (r_accessor (resolve field)) o).
Proof.
  intros Hwf Hok Hne Hcols vs.
  assert (Hscan : scan (heap s) objects [] (r_accessor (resolve field))
                       (r_column (resolve field)) = Return vs).
  { rewrite scan_spec by done. unfold vs. f_equal. f_equal.
    apply list_filter_iff. intros o. split; [|by right]. by intros [?|?]. }
  split; [exact Hscan|]. split.
  - intros Hvs.
    destruct (attach_foreignkey_fetch db objects field [] database s vs)
      as (s' & Hrun & Hq & _); try done.
    by exists s'.
  - intros o Ho. by exists VNone.
Qed.

Lemma scan_skips_already_cached_witness :
  let vs := omap (λ o, attr (heap cached_posts) o
                            (r_column (resolve Post_thread)))
                 (filter (λ o, ¬ already_cached (heap cached_posts)
                                   (r_accessor (resolve Post_thread)) o)
                         [0; 1]) in
  scan (heap cached_posts) [0; 1] [] (r_accessor (resolve Post_thread))
       (r_column (resolve Post_thread)) = Return vs ∧
  (vs ≠ [] →
   ∃ s', attach_foreignkey forum_db [0; 1] Post_thread [] "default"
           cached_posts = (Return (), s') ∧
         queries s' = queries cached_posts
                      ++ [fetch_query Post_thread [] "default" vs]) ∧
  (∀ o, attr (heap cached_posts) o (r_accessor (resolve Post_thread))
        = Some VNone →
        already_cached (heap cached_posts)
                       (r_accessor (resolve Post_thread)) o).
Proof.
  apply (scan_skips_already_cached forum_db [0; 1] Post_thread "default"
           cached_posts).
  - apply state_wf_decide. vm_compute. reflexivity.
  - reflexivity.
  - discriminate.
  - intros o Ho. members Ho; evaluated.
Defined.

(** The one-to-one branch on the two users: the query filters on [user]
    and the table is keyed by [user_id]. *)
Example attach_foreignkey_reverse_one_to_one :
  descriptor_ok forum_db User_profile ∧
  ∃ s', attach_foreignkey forum_db [0; 1] User_profile [] "default"
          two_users = (Return (), s') ∧
        queries s' = [Query Profile "user" [VInt 1; VInt 5] "default" []] ∧
        attr (heap s') 0 "_profile_cache" = Some (VObj 2) ∧
        attr (heap s') 1 "_profile_cache" = Some VNone.
Proof.
  split; [reflexivity|]. eexists. split; [vm_compute; reflexivity|].
  repeat split; reflexivity.
Qed.

(** C2, as the code has it: when the scan finds at least one value, the
    final pass writes the slot of every owner of the collection, and the
    slot of an owner without a matching related record holds [None]. *)
Theorem attach_foreignkey_unmatched_gets_None
    db objects field related database s vs :
  state_wf s →
  descriptor_ok db field →
  r_accessor (resolve field) ≠ r_column (resolve field) →
  (∀ o, o ∈ objects →
        is_Some (attr (heap s) o (r_column (resolve field)))) →
  scan (heap s) objects related (r_accessor (resolve field))
       (r_column (resolve field)) = Return vs →
  vs ≠ [] →
  ∃ s', attach_foreignkey db objects field related database s
          = (Return (), s') ∧
        (∀ o, o ∈ objects →
              is_Some (attr (heap s') o (r_accessor (resolve field)))) ∧
        (∀ o v, o ∈ objects →
                attr (heap s) o (r_column (resolve field)) = Some v →
                (∀ row, row ∈ db_rows db database (r_model (resolve field))
                                      related →
                        row_matches (r_key (resolve field)) v row = false) →
                attr (heap s') o (r_accessor (resolve field)) = Some VNone).
Proof.
  intros Hwf Hok Hne Hcols Hscan Hvs.
  destruct (attach_foreignkey_fetch db objects field related database s vs)
    as (s' & Hrun & _ & _ & Hslot); try done.
  exists s'. split; [exact Hrun|]. split.
  - intros o Ho. destruct (Hcols o Ho) as [v Hv].
    specialize (Hslot o v Ho Hv).
    destruct (list_find _ _) as [[i row]|].
    + destruct Hslot as [-> _]. eauto.
    + rewrite Hslot. eauto.
  - intros o v Ho Hv Hnone. specialize (Hslot o v Ho Hv).
    by rewrite (no_match_selected db (fetch_query field related database vs)
                  (r_key (resolve field)) v Hok Hnone) in Hslot.
Qed.

Lemma attach_foreignkey_unmatched_gets_None_witness :
  ∃ s', attach_foreignkey forum_db [0; 1; 2] Post_thread [] "default"
          plain_posts = (Return (), s') ∧
        (∀ o, o ∈ [0; 1; 2] →
              is_Some (attr (heap s') o (r_accessor (resolve Post_thread)))) ∧
        (∀ o v, o ∈ [0; 1; 2] →
                attr (heap plain_posts) o (r_column (resolve Post_thread))
                = Some v →
                (∀ row, row ∈ db_rows forum_db "default"
                                      (r_model (resolve Post_thread)) [] →
                        row_matches (r_key (resolve Post_thread)) v row
                        = false) →
                attr (heap s') o (r_accessor (resolve Post_thread))
                = Some VNone).
Proof.
  apply (attach_foreignkey_unmatched_gets_None forum_db [0; 1; 2]
           Post_thread [] "default" plain_posts [VInt 1; VInt 2; VInt 3]).
  - apply state_wf_decide. vm_compute. reflexivity.
  - reflexivity.
  - discriminate.
  - intros o Ho. members Ho; evaluated.
  - reflexivity.
  - discriminate.
Defined.

(** C2, as stated, fails: post 0 points at thread 9, which has no row in
    the table, and already holds a cached object.  It is skipped by the
    scan, nothing is fetched, and the slot keeps the object instead of
    [None]. *)
Lemma attach_foreignkey_stale_slot_not_None :
  (∀ row, row ∈ db_rows forum_db "default" Thread [] →
          row_matches "pk" (VInt 9) row = false) ∧
  attr (heap stale_posts) 0 "thread_id" = Some (VInt 9) ∧
  ∃ s', attach_foreignkey forum_db [0] Post_thread [] "default" stale_posts
          = (Return (), s') ∧
        attr (heap s') 0 "_thread_cache" = Some (VObj 1) ∧
        attr (heap s') 0 "_thread_cache" ≠ Some VNone.
Proof.
  split; [|split; [reflexivity|]].
  - intros row Hrow. vm_compute in Hrow. members Hrow; reflexivity.
  - exists stale_posts. split; [reflexivity|]. split; [reflexivity|].
    discriminate.
Qed.

(** The final pass on an owner whose value is not among the scanned
    ones: its slot is overwritten with [None], whatever it held. *)
Lemma attach_foreignkey_unscanned_owner_cleared
    db objects field related database s vs o v :
  state_wf s →
  descriptor_ok db field →
  r_accessor (resolve field) ≠ r_column (resolve field) →
  (∀ o, o ∈ objects →
        is_Some (attr (heap s) o (r_column (resolve field)))) →
  scan (heap s) objects related (r_accessor (resolve field))
       (r_column (resolve field)) = Return vs →
  vs ≠ [] →
  o ∈ objects →
  attr (heap s) o (r_column (resolve field)) = Some v →
  existsb (py_eqb v) vs = false →
  ∃ s', attach_foreignkey db objects field related database s
          = (Return (), s') ∧
        attr (heap s') o (r_accessor (resolve field)) = Some VNone.
Proof.
  intros Hwf Hok Hne Hcols Hscan Hvs Ho Hv Hout.
  destruct (attach_foreignkey_fetch db objects field related database s vs)
    as (s' & Hrun & _ & _ & Hslot); try done.
  exists s'. split; [exact Hrun|]. specialize (Hslot o v Ho Hv).
  destruct (list_find _ _) as [[i row]|] eqn:Hfind; [|exact Hslot].
  exfalso. apply list_find_Some in Hfind as (Hi & Hkey & _).
  apply list_elem_of_lookup_2 in Hi.
  destruct (selected_rows_keyed db (fetch_query field related database vs)
              (r_key (resolve field)) row Hok Hi) as (k & Hk & _ & Hex).
  unfold row_has_key in Hkey. rewrite Hk in Hkey.
  apply Is_true_true, py_eqb_norm in Hkey.
  cbn [fetch_query q_values] in Hex. rewrite existsb_distinct in Hex.
  apply existsb_exists in Hex as (w & Hw & Hkw%py_eqb_norm).
  assert (existsb (py_eqb v) vs = true); [|congruence].
  apply existsb_exists. exists w. split; [done|].
  apply py_eqb_norm. congruence.
Qed.

(** C1: the code at the failing input.  Post 0 holds thread 1, post 1
    holds nothing; the fetch for post 1 brings thread 2 only, and the
    final pass overwrites the slot of post 0 with [None]. *)
Lemma attach_foreignkey_overwrites_cached_owner :
  already_cached (heap cached_posts) "_thread_cache" 0 ∧
  attr (heap cached_posts) 0 "_thread_cache" = Some (VObj 2) ∧
  ∃ s', attach_foreignkey forum_db [0; 1] Post_thread [] "default"
          cached_posts = (Return (), s') ∧
        queries s' = [fetch_query Post_thread [] "default" [VInt 2]] ∧
        attr (heap s') 0 "_thread_cache" = Some VNone ∧
        attr (heap s') 1 "_thread_cache" = Some (VObj 3).
Proof.
  split; [|split; [reflexivity|]].
  - exists (VObj 2). split; [reflexivity|discriminate].
  - eexists. split; [vm_compute; reflexivity|].
    split; [reflexivity|]. split; reflexivity.
Qed.

Lemma scan_related_all h objects related accessor column :
  related ≠ [] →
  (∀ o, o ∈ objects → is_Some (attr h o column)) →
  scan h objects related accessor column
  = Return (omap (λ o, attr h o column) objects).
Proof.
  intros Hrel Hcols. rewrite scan_spec by done. f_equal. f_equal.
  induction objects as [|o objects IH]; [done|].
  rewrite filter_cons_True by (by left). f_equal. apply IH.
  intros o' Ho'. apply Hcols. by right.
Qed.

Lemma existsb_py_eqb_elem k v vs :
  v ∈ vs → py_eqb k v = true → existsb (py_eqb k) vs = true.
Proof.
  intros Hin Hkv. apply existsb_exists. exists v. split; [|done].
  by apply list_elem_of_In.
Qed.

(** C7: with a non-empty [related], every owner is scanned whatever its
    slot holds, the query asks for the nested relations, and each owner
    with a matching row ends with a newly created record in its slot,
    whatever a previous call had left there. *)
Theorem attach_foreignkey_related_refetches
    db objects field related database s :
  related ≠ [] →
  objects ≠ [] →
  state_wf s →
  descriptor_ok db field →
  r_accessor (resolve field) ≠ r_column (resolve field) →
  (∀ o, o ∈ objects →
        is_Some (attr (heap s) o (r_column (resolve field)))) →
  let vs := omap (λ o, attr (heap s) o (r_column (resolve field))) objects in
  scan (heap s) objects related (r_accessor (resolve field))
       (r_column (resolve field)) = Return vs ∧
  ∃ s', attach_foreignkey db objects field related database s
          = (Return (), s') ∧
        queries s' = queries s ++ [fetch_query field related database vs] ∧
        (∀ o v j row,
            o ∈ objects →
            attr (heap s) o (r_column (resolve field)) = Some v →
            list_find (λ row, row_matches (r_key (resolve field)) v row)
                      (db_rows db database (r_model (resolve field)) related)
              = Some (j, row) →
            ∃ r, attr (heap s') o (r_accessor (resolve field))
                   = Some (VObj r) ∧
                 heap s !! r = None ∧
                 heap s' !! r = Some row).
Proof.
  intros Hrel Hobjs Hwf Hok Hne Hcols vs.
  assert (Hscan : scan (heap s) objects related (r_accessor (resolve field))
                       (r_column (resolve field)) = Return vs).
  { by apply scan_related_all. }
  assert (Hvs : vs ≠ []).
  { destruct objects as [|o objects]; [done|].
    destruct (Hcols o) as [v Hv]; [left|]. unfold vs. simpl. by rewrite Hv. }
  split; [exact Hscan|].
  destruct (attach_foreignkey_fetch db objects field related database s vs)
    as (s' & Hrun & Hq & _ & Hslot); try done.
  exists s'. split; [exact Hrun|]. split; [exact Hq|].
  intros o v j row Ho Hv Hfind.
  assert (Hin : v ∈ vs).
  { apply list_elem_of_omap. eauto. }
  destruct (first_match_selected db (fetch_query field related database vs)
              (r_key (resolve field)) v j row Hok) as [i Hi]; [|exact Hfind|].
  { cbn [fetch_query q_values]. rewrite existsb_distinct.
    eapply existsb_py_eqb_elem; [exact Hin|apply py_eqb_refl]. }
  specialize (Hslot o v Ho Hv). rewrite Hi in Hslot.
  destruct Hslot as [Hs Hr].
  exists (next_ref s + i). split; [exact Hs|]. split; [|exact Hr].
  apply eq_None_not_Some. intros Hsome. apply Hwf in Hsome. lia.
Qed.

Lemma attach_foreignkey_related_refetches_witness :
  let vs := omap (λ o, attr (heap cached_posts) o
                            (r_column (resolve Post_thread))) [0; 1] in
  scan (heap cached_posts) [0; 1] ["forum"]
       (r_accessor (resolve Post_thread))
       (r_column (resolve Post_thread)) = Return vs ∧
  ∃ s', attach_foreignkey forum_db [0; 1] Post_thread ["forum"] "default"
          cached_posts = (Return (), s') ∧
        queries s' = queries cached_posts
                     ++ [fetch_query Post_thread ["forum"] "default" vs] ∧
        (∀ o v j row,
            o ∈ [0; 1] →
            attr (heap cached_posts) o (r_column (resolve Post_thread))
              = Some v →
            list_find (λ row, row_matches (r_key (resolve Post_thread)) v row)
                      (db_rows forum_db "default"
                               (r_model (resolve Post_thread)) ["forum"])
              = Some (j, row) →
            ∃ r, attr (heap s') o (r_accessor (resolve Post_thread))
                   = Some (VObj r) ∧
                 heap cached_posts !! r = None ∧
                 heap s' !! r = Some row).
Proof.
  apply (attach_foreignkey_related_refetches forum_db [0; 1] Post_thread
           ["forum"] "default" cached_posts).
  - discriminate.
  - discriminate.
  - apply state_wf_decide. vm_compute. reflexivity.
  - reflexivity.
  - discriminate.
  - intros o Ho. members Ho; evaluated.
Defined.

(** * [attach_foreignkeys] *)

Lemma existsb_set_update k values new :
  existsb (py_eqb k) (set_update values (distinct new))
  = existsb (py_eqb k) values || existsb (py_eqb k) new.
Proof.
  unfold set_update.
  by rewrite existsb_distinct, existsb_app, existsb_distinct.
Qed.

(** The first loop stops at the first group whose model differs from the
    one it holds. *)
Lemma collect_mismatch h object_sets related m values :
  (∀ g o, g ∈ object_sets → o ∈ g.1 →
          is_Some (attr h o (f_column g.2))) →
  (∃ g, g ∈ object_sets ∧ f_rel_to g.2 ≠ m) →
  ∃ m2, m2 ≠ m ∧ (∃ g, g ∈ object_sets ∧ f_rel_to g.2 = m2) ∧
        collect h object_sets related (Some m) values
        = Raise (ValueError m m2).
Proof.
  revert values.
  induction object_sets as [|[objects field] rest IH]; intros values Hcols Hex.
  - destruct Hex as (g & Hg & _). by apply elem_of_nil in Hg.
  - cbn [collect]. destruct (decide (m ≠ f_rel_to field)) as [Hm|Hm].
    + exists (f_rel_to field). split; [done|]. split; [|done].
      exists (objects, field). split; [left|done].
    + apply dec_stable in Hm. cbn [mbind outcome_mbind outcome_bind].
      rewrite scan_spec
        by (intros o Ho; apply (Hcols (objects, field)); [left|done]).
      cbn [outcome_bind].
      destruct (IH (set_update values
                      (distinct (omap (λ o, attr h o (f_column field))
                         (filter (λ o, related ≠ [] ∨
                                       ¬ already_cached h (cache_attr field) o)
                                 objects)))))
        as (m2 & Hm2 & (g & Hg & Hgm) & Hrun).
      * intros g o Hg Ho. apply Hcols; [by right|done].
      * destruct Hex as (g & Hg & Hgm).
        apply elem_of_cons in Hg as [->|Hg]; [|eauto].
        simpl in Hgm. congruence.
      * exists m2. split; [done|]. split; [|done].
        exists g. split; [by right|done].
Qed.

(** C3: when two groups reference different models, [attach_foreignkeys]
    raises the error naming two different models of the groups, and the
    state is the one it was called in: no query, no write. *)
Theorem attach_foreignkeys_model_mismatch
    db object_sets related database s g1 g2 :
  g1 ∈ object_sets →
  g2 ∈ object_sets →
  f_rel_to g1.2 ≠ f_rel_to g2.2 →
  (∀ g o, g ∈ object_sets → o ∈ g.1 →
          is_Some (attr (heap s) o (f_column g.2))) →
  ∃ m1 m2, m1 ≠ m2 ∧
           (∃ g, g ∈ object_sets ∧ f_rel_to g.2 = m1) ∧
           (∃ g, g ∈ object_sets ∧ f_rel_to g.2 = m2) ∧
           attach_foreignkeys db object_sets related database s
           = (Raise (ValueError m1 m2), s).
Proof.
  intros Hg1 Hg2 Hdiff Hcols.
  destruct object_sets as [|[objects field] rest].
  { by apply elem_of_nil in Hg1. }
  set (m := f_rel_to field).
  destruct (collect_mismatch (heap s) rest related m
              (set_update []
                 (distinct (omap (λ o, attr (heap s) o (f_column field))
                    (filter (λ o, related ≠ [] ∨
                                  ¬ already_cached (heap s)
                                      (cache_attr field) o)
                            objects)))))
    as (m2 & Hm2 & (g & Hg & Hgm) & Hrun).
  - intros g o Hg Ho. apply Hcols; [by right|done].
  - destruct (decide (f_rel_to g1.2 = m)) as [H1|H1].
    + exists g2. split; [|congruence].
      apply elem_of_cons in Hg2 as [->|Hg2]; [|done].
      simpl in Hdiff. unfold m in H1. congruence.
    + exists g1. split; [|done].
      apply elem_of_cons in Hg1 as [->|Hg1]; [|done]. done.
  - exists m, m2. split; [congruence|]. split; [|split].
    + exists (objects, field). split; [left|done].
    + exists g. split; [by right|done].
    + unfold attach_foreignkeys.
      rewrite M_bind_run, reading_run. cbn [collect].
      rewrite outcome_bind_Return, scan_spec
        by (intros o Ho; apply (Hcols (objects, field)); [left|done]).
      rewrite outcome_bind_Return. fold m. by rewrite Hrun.
Qed.

Lemma attach_foreignkeys_model_mismatch_witness :
  ∃ m1 m2, m1 ≠ m2 ∧
           (∃ g, g ∈ [([0; 1], thread_field); ([2], author_field)] ∧
                 f_rel_to g.2 = m1) ∧
           (∃ g, g ∈ [([0; 1], thread_field); ([2], author_field)] ∧
                 f_rel_to g.2 = m2) ∧
           attach_foreignkeys forum_db
             [([0; 1], thread_field); ([2], author_field)] [] "default"
             posts_and_comment
           = (Raise (ValueError m1 m2), posts_and_comment).
Proof.
  apply (attach_foreignkeys_model_mismatch forum_db
           [([0; 1], thread_field); ([2], author_field)] [] "default"
           posts_and_comment ([0; 1], thread_field) ([2], author_field)).
  - left.
  - right. left.
  - discriminate.
  - intros g o Hg Ho. members Hg; simpl in Ho; members Ho; evaluated.
Defined.

(** When every group references [m], the first loop ends with the union
    of the scans. *)
Lemma collect_same h object_sets related m model values :
  (∀ g, g ∈ object_sets → f_rel_to g.2 = m) →
  (∀ m0, model = Some m0 → m0 = m) →
  (∀ g o, g ∈ object_sets → o ∈ g.1 →
          is_Some (attr h o (f_column g.2))) →
  ∃ model' values',
    collect h object_sets related model values = Return (model', values') ∧
    (∀ m0, model' = Some m0 → m0 = m) ∧
    (object_sets ≠ [] → model' = Some m) ∧
    (all_different values → all_different values') ∧
    ∀ k, existsb (py_eqb k) values' = true ↔
         existsb (py_eqb k) values = true ∨
         ∃ g vs, g ∈ object_sets ∧
                 scan h g.1 related (cache_attr g.2) (f_column g.2)
                 = Return vs ∧
                 existsb (py_eqb k) vs = true.
Proof.
  revert model values.
  induction object_sets as [|[objects field] rest IH];
    intros model values Hsame Hmodel Hcols.
  - exists model, values. split; [done|]. split; [done|]. split; [done|].
    split; [done|].
    intros k. split; [by left|]. intros [?|(g & vs & Hg & _)]; [done|].
    by apply elem_of_nil in Hg.
  - assert (Hm : f_rel_to field = m) by (apply (Hsame (objects, field)); left).
    assert (Hscan : ∃ vs, scan h objects related (cache_attr field)
                               (f_column field) = Return vs).
    { eexists. apply scan_spec. intros o Ho.
      apply (Hcols (objects, field)); [left|done]. }
    destruct Hscan as [vs Hscan].
    destruct (IH (Some m) (set_update values (distinct vs)))
      as (model' & values' & Hrun & Hmodel' & Hne & Hdiff & Hmem).
    { intros g Hg. apply Hsame. by right. }
    { by intros m0 [= <-]. }
    { intros g o Hg Ho. apply Hcols; [by right|done]. }
    assert (Hmodel'' : model' = Some m).
    { destruct rest; [|by apply Hne].
      simpl in Hrun. by injection Hrun as <- _. }
    exists model', values'. split; [|split; [done|split; [done|split]]].
    2: { intros _. apply Hdiff. apply distinct_all_different. }
    + cbn [collect].
      assert (Hstep : match model with
                      | Some m0 =>
                          if decide (m0 ≠ f_rel_to field)
                          then Raise (ValueError m0 (f_rel_to field))
                          else Return (Some m0)
                      | None => Return (Some (f_rel_to field))
                      end = Return (Some m)).
      { destruct model as [m0|]; [|by rewrite Hm].
        rewrite (Hmodel m0 eq_refl), Hm. by rewrite decide_False by auto. }
      rewrite Hstep, outcome_bind_Return, Hscan, outcome_bind_Return.
      exact Hrun.
    + intros k. rewrite Hmem, existsb_set_update, orb_true_iff. split.
      * intros [[?|Hvs]|(g & vs' & Hg & Hgs & Hk)]; [by left| |].
        -- right. exists (objects, field), vs. split; [left|done].
        -- right. exists g, vs'. split; [by right|done].
      * intros [?|(g & vs' & Hg & Hgs & Hk)]; [by left; left|].
        apply elem_of_cons in Hg as [->|Hg].
        -- left. right. simpl in Hgs. congruence.
        -- right. eauto.
Qed.

(** The second loop: every slot of every group ends with the entry of
    the one lookup table for the owner's foreign-key value. *)
Lemma attach_sets_spec d object_sets s :
  (∀ g g', g ∈ object_sets → g' ∈ object_sets →
           cache_attr g.2 ≠ f_column g'.2) →
  (∀ g g', g ∈ object_sets → g' ∈ object_sets →
           cache_attr g.2 = cache_attr g'.2 → f_column g.2 = f_column g'.2) →
  (∀ g o, g ∈ object_sets → o ∈ g.1 →
          is_Some (attr (heap s) o (f_column g.2))) →
  ∃ s', attach_sets d object_sets s = (Return (), s') ∧
        next_ref s' = next_ref s ∧
        queries s' = queries s ∧
        (∀ r, (∀ g, g ∈ object_sets → r ∉ g.1) →
              heap s' !! r = heap s !! r) ∧
        (∀ r a, (∀ g, g ∈ object_sets → r ∉ g.1 ∨ a ≠ cache_attr g.2) →
                attr (heap s') r a = attr (heap s) r a) ∧
        (∀ g o v, g ∈ object_sets → o ∈ g.1 →
                  attr (heap s) o (f_column g.2) = Some v →
                  attr (heap s') o (cache_attr g.2) = Some (dict_get d v)).
Proof.
  revert s.
  induction object_sets as [|[objects field] rest IH];
    intros s Hdisj Hsame Hcols.
  - exists s. repeat split; try done.
    intros g o v Hg. by apply elem_of_nil in Hg.
  - destruct (attach_pass_spec d objects (cache_attr field)
                (f_column field) s)
      as (s1 & Hrun1 & Hn1 & Hq1 & Hheap1 & Hframe1 & Hset1).
    { apply (Hdisj (objects, field) (objects, field)); left. }
    { intros o Ho. apply (Hcols (objects, field)); [left|done]. }
    assert (Hcol1 : ∀ g r, g ∈ (objects, field) :: rest →
              attr (heap s1) r (f_column g.2) = attr (heap s) r (f_column g.2)).
    { intros g r Hg. apply Hframe1. right. intros Heq.
      apply (Hdisj (objects, field) g); [left|done|by symmetry]. }
    destruct (IH s1) as (s' & Hrun & Hn & Hq & Hheap & Hframe & Hset).
    { intros g g' Hg Hg'. apply Hdisj; by right. }
    { intros g g' Hg Hg'. apply Hsame; by right. }
    { intros g o Hg Ho. rewrite Hcol1 by (by right).
      apply Hcols; [by right|done]. }
    exists s'. split; [|split; [congruence|split; [congruence|split;
      [|split]]]].
    + cbn [attach_sets]. by rewrite M_bind_run, Hrun1.
    + intros r Hr. rewrite Hheap, Hheap1; [done| |].
      * apply (Hr (objects, field)). left.
      * intros g Hg. apply Hr. by right.
    + intros r a Hra. rewrite Hframe, Hframe1; [done| |].
      * apply (Hra (objects, field)). left.
      * intros g Hg. apply Hra. by right.
    + intros g o v Hg Ho Hv.
      destruct (decide (Exists (λ g', o ∈ g'.1 ∧
                                      cache_attr g'.2 = cache_attr g.2) rest))
        as [Hlater|Hnone].
      * apply Exists_exists in Hlater as (g' & Hg' & Ho' & Hacc).
        rewrite <- Hacc. apply Hset; [done..|].
        rewrite Hcol1 by (by right).
        rewrite (Hsame g' g) by (done || by right). done.
      * assert (Hhead : g = (objects, field)).
        { apply elem_of_cons in Hg as [->|Hg]; [done|].
          exfalso. apply Hnone. apply Exists_exists. eauto. }
        subst g. cbn [fst snd] in *.
        rewrite Hframe.
        -- by apply Hset1.
        -- intros g' Hg'. destruct (decide (o ∈ g'.1)) as [Hin|?]; [|by left].
           right. intros Heq. apply Hnone. apply Exists_exists.
           exists g'. by split.
Qed.

(** C4, as the code has it: when every group references the same model
    and some group's scan finds a value, the scanned values of all groups
    form one key set without repetition, exactly one query is evaluated,
    for that key set, and the lookup table built from its result fills
    the slots of the owners of every group. *)
Theorem attach_foreignkeys_single_fetch
    db object_sets related database s m g0 vs0 :
  state_wf s →
  (∀ g, g ∈ object_sets → f_rel_to g.2 = m) →
  (∀ g g', g ∈ object_sets → g' ∈ object_sets →
           cache_attr g.2 ≠ f_column g'.2) →
  (∀ g g', g ∈ object_sets → g' ∈ object_sets →
           cache_attr g.2 = cache_attr g'.2 → f_column g.2 = f_column g'.2) →
  (∀ g o, g ∈ object_sets → o ∈ g.1 →
          is_Some (attr (heap s) o (f_column g.2))) →
  g0 ∈ object_sets →
  scan (heap s) g0.1 related (cache_attr g0.2) (f_column g0.2) = Return vs0 →
  vs0 ≠ [] →
  ∃ values s',
    all_different values ∧
    (∀ k, existsb (py_eqb k) values = true ↔
          ∃ g vs, g ∈ object_sets ∧
                  scan (heap s) g.1 related (cache_attr g.2) (f_column g.2)
                  = Return vs ∧
                  existsb (py_eqb k) vs = true) ∧
    attach_foreignkeys db object_sets related database s = (Return (), s') ∧
    queries s' = queries s ++ [Query m "pk" values database related] ∧
    (∀ g o v, g ∈ object_sets → o ∈ g.1 →
              attr (heap s) o (f_column g.2) = Some v →
              match list_find (λ row, row_has_key "pk" v row)
                      (selected_rows db
                         (Query m "pk" values database related)) with
              | Some (i, row) =>
                  attr (heap s') o (cache_attr g.2)
                    = Some (VObj (next_ref s + i)) ∧
                  heap s' !! (next_ref s + i) = Some row
              | None => attr (heap s') o (cache_attr g.2) = Some VNone
              end).
Proof.
  intros Hwf Hsame Hdisj Hcolumn Hcols Hg0 Hscan0 Hvs0.
  destruct (collect_same (heap s) object_sets related m None [] Hsame)
    as (model' & values & Hcollect & _ & Hmodel & Hdiff & Hmem);
    [done|done|].
  assert (Hmem' : ∀ k, existsb (py_eqb k) values = true ↔
            ∃ g vs, g ∈ object_sets ∧
                    scan (heap s) g.1 related (cache_attr g.2) (f_column g.2)
                    = Return vs ∧
                    existsb (py_eqb k) vs = true).
  { intros k. rewrite Hmem. split; [|by right]. by intros [?|?]. }
  assert (Hvalues : negb (truthy values) = false).
  { destruct vs0 as [|v vs0]; [done|].
    destruct values as [|w values]; [|done].
    assert (existsb (py_eqb v) [] = true); [|done].
    apply Hmem'. exists g0, (v :: vs0). split; [done|]. split; [done|].
    cbn [existsb]. by rewrite py_eqb_refl. }
  rewrite Hmodel in Hcollect
    by (intros ->; by apply elem_of_nil in Hg0).
  set (q := Query m "pk" values database related).
  destruct (fetch_table db q "pk" s Hwf eq_refl)
    as (qs & s1 & d & Hev & Hd & Hq1 & Hold & Htable).
  { cbn [q q_values]. by destruct values. }
  assert (Hattr1 : ∀ r a, r < next_ref s →
            attr (heap s1) r a = attr (heap s) r a).
  { intros r a Hr. unfold attr. by rewrite Hold. }
  destruct (attach_sets_spec d object_sets s1 Hdisj Hcolumn)
    as (s' & Hrun & Hn' & Hq' & Hheap & Hframe & Hset).
  { intros g o Hg Ho. rewrite Hattr1 by eauto using live_below.
    by apply Hcols. }
  exists values, s'.
  split; [by apply Hdiff|]. split; [exact Hmem'|]. split; [|split].
  - unfold attach_foreignkeys.
    rewrite M_bind_run, reading_run, Hcollect, Hvalues.
    change (Query m "pk" values database related) with q.
    by rewrite M_bind_run, Hev, M_bind_run, reading_run, Hd.
  - by rewrite Hq', Hq1.
  - intros g o v Hg Ho Hv. specialize (Htable v).
    change (Query m "pk" values database related) with q.
    rewrite (Hset g o v)
      by (done || rewrite Hattr1; eauto using live_below).
    destruct (list_find _ (selected_rows db q)) as [[i row]|]; [|by f_equal].
    destruct Htable as [-> Hrow]. split; [done|].
    rewrite Hheap; [done|].
    intros g' Hg' Hin. assert (next_ref s + i < next_ref s); [|lia].
    eauto using live_below.
Qed.

Lemma attach_foreignkeys_single_fetch_witness :
  ∃ values s',
    all_different values ∧
    (∀ k, existsb (py_eqb k) values = true ↔
          ∃ g vs, g ∈ [([0; 1], thread_field); ([2; 1], thread_field)] ∧
                  scan (heap plain_posts) g.1 [] (cache_attr g.2)
                       (f_column g.2) = Return vs ∧
                  existsb (py_eqb k) vs = true) ∧
    attach_foreignkeys forum_db
      [([0; 1], thread_field); ([2; 1], thread_field)] [] "default"
      plain_posts = (Return (), s') ∧
    queries s' = queries plain_posts
                 ++ [Query Thread "pk" values "default" []] ∧
    (∀ g o v, g ∈ [([0; 1], thread_field); ([2; 1], thread_field)] →
              o ∈ g.1 →
              attr (heap plain_posts) o (f_column g.2) = Some v →
              match list_find (λ row, row_has_key "pk" v row)
                      (selected_rows forum_db
                         (Query Thread "pk" values "default" [])) with
              | Some (i, row) =>
                  attr (heap s') o (cache_attr g.2)
                    = Some (VObj (next_ref plain_posts + i)) ∧
                  heap s' !! (next_ref plain_posts + i) = Some row
              | None => attr (heap s') o (cache_attr g.2) = Some VNone
              end).
Proof.
  apply (attach_foreignkeys_single_fetch forum_db
           [([0; 1], thread_field); ([2; 1], thread_field)] [] "default"
           plain_posts Thread ([0; 1], thread_field) [VInt 1; VInt 2]).
  - apply state_wf_decide. vm_compute. reflexivity.
  - intros g Hg. members Hg; reflexivity.
  - intros g g' Hg Hg'. members Hg; members Hg'; discriminate.
  - intros g g' Hg Hg' _. members Hg; members Hg'; reflexivity.
  - intros g o Hg Ho. members Hg; simpl in Ho; members Ho; evaluated.
  - left.
  - reflexivity.
  - discriminate.
Defined.

(** C4, as stated, fails: the only owner of the only group already holds
    a cached object, so nothing is scanned and no query is evaluated. *)
Lemma attach_foreignkeys_no_fetch_when_cached :
  (∀ g, g ∈ [([0], thread_field)] → f_rel_to g.2 = Thread) ∧
  ∃ s', attach_foreignkeys forum_db [([0], thread_field)] [] "default"
          stale_posts = (Return (), s') ∧
        queries stale_posts = [] ∧
        queries s' = [].
Proof.
  split.
  - intros g Hg. members Hg. reflexivity.
  - exists stale_posts. split; [reflexivity|]. split; reflexivity.
Qed.

(** * [attach_profile] *)

Lemma setattr_spec o name v s :
  is_Some (heap s !! o) →
  ∃ s', setattr (VObj o) name v s = (Return (), s') ∧
        next_ref s' = next_ref s ∧
        queries s' = queries s ∧
        (∀ r, is_Some (heap s' !! r) ↔ is_Some (heap s !! r)) ∧
        (∀ r a, attr (heap s') r a =
                if decide (r = o ∧ a = name) then Some v
                else attr (heap s) r a).
Proof.
  intros [attrs Ho]. eexists. split; [by apply setattr_run|].
  cbn [heap next_ref queries]. split; [done|]. split; [done|]. split.
  - intros r. destruct (decide (r = o)) as [->|Hr].
    + rewrite lookup_insert_eq, Ho. split; eauto.
    + by rewrite lookup_insert_ne.
  - intros r a. by apply attr_insert.
Qed.

Lemma pk_list_spec h users :
  (∀ u, u ∈ users → is_Some (attr h u "pk")) →
  pk_list h users = Return (omap (λ u, attr h u "pk") users).
Proof.
  induction users as [|u users IH]; intros Hpk; [done|].
  cbn [pk_list]. destruct (Hpk u) as [pk Hu]; [left|].
  rewrite getattr_obj, Hu, outcome_bind_Return, IH, outcome_bind_Return.
  - simpl. by rewrite Hu.
  - intros u' Hu'. apply Hpk. by right.
Qed.





(** * Further properties of [queryset_to_dict] and [distinct] *)

Lemma py_eqb_trans_l a b c :
  py_eqb a b = true → py_eqb a c = py_eqb b c.
Proof.
  intros Hab%py_eqb_norm. apply eq_true_iff_eq.
  rewrite !py_eqb_norm. split; congruence.
Qed.

Lemma dict_lookup_set d k v k0 :
  dict_lookup (dict_set d k v) k0 =
  if py_eqb k k0 then Some v else dict_lookup d k0.
Proof.
  induction d as [|[k' v'] d IH]; cbn [dict_set dict_lookup].
  - by destruct (py_eqb k k0).
  - destruct (py_eqb k' k) eqn:Hk'; cbn [dict_lookup].
    + rewrite (py_eqb_trans_l k' k k0 Hk'). by destruct (py_eqb k k0).
    + rewrite IH. destruct (py_eqb k' k0) eqn:Hk0; [|done].
      destruct (py_eqb k k0) eqn:Hkk; [|done].
      rewrite (py_eqb_compat_r k k0 k' Hkk) in Hk'. congruence.
Qed.

Lemma dict_lookup_append d k u k0 :
  dict_lookup (dict_append d k u) k0 =
  if py_eqb k k0
  then Some (VList (match dict_lookup d k with
                    | Some (VList us) => us ++ [u]
                    | _ => [u]
                    end))
  else dict_lookup d k0.
Proof.
  unfold dict_append.
  destruct (dict_lookup d k) as [[| | | | |us]|]; by rewrite dict_lookup_set.
Qed.

(** What the plural loop leaves in [result], when [result] holds lists
    only: the records of the rest of the input join the list of their
    key, in the order they come. *)
Lemma queryset_to_dict_plural_lookup h qs key result :
  (∀ u, u ∈ qs → is_Some (attr h u key)) →
  (∀ k v, dict_lookup result k = Some v → ∃ us, v = VList us) →
  ∃ d, queryset_to_dict_plural h qs key result = Return d ∧
       ∀ k, dict_lookup d k =
            match dict_lookup result k,
                  filter (λ u, has_key h key k u) qs with
            | None, [] => None
            | None, us => Some (VList us)
            | Some (VList us0), us => Some (VList (us0 ++ us))
            | Some v, _ => Some v
            end.
Proof.
  revert result. induction qs as [|u qs IH]; intros result Hall Hlists.
  - exists result. split; [done|]. intros k. rewrite filter_nil.
    destruct (dict_lookup result k) as [v|] eqn:Hv; [|done].
    destruct (Hlists k v Hv) as [us ->]. by rewrite app_nil_r.
  - destruct (Hall u) as [ku Hku]; [left|].
    destruct (IH (dict_append result ku u)) as (d & Hd & Hlk).
    { intros u' Hu'. apply Hall. by right. }
    { intros k v. rewrite dict_lookup_append.
      destruct (py_eqb ku k); [intros [= <-]; eauto|apply Hlists]. }
    exists d. split.
    { cbn [queryset_to_dict_plural]. rewrite getattr_obj, Hku. exact Hd. }
    intros k. rewrite Hlk, dict_lookup_append.
    destruct (py_eqb ku k) eqn:Heq.
    + rewrite filter_cons_True by (unfold has_key; by rewrite Hku, Heq).
      rewrite (dict_lookup_compat result ku k Heq).
      destruct (dict_lookup result k) as [v|] eqn:Hv.
      * destruct (Hlists k v Hv) as [us ->]. by rewrite <- app_assoc.
      * done.
    + rewrite filter_cons_False
        by (unfold has_key; rewrite Hku, Heq; intros []).
      done.
Qed.

(** X1: with [singular=False], [queryset_to_dict] maps each key to the
    list of all the records that have this key, in the order of the
    input, and has no entry for a key no record has. *)
Theorem queryset_to_dict_plural_groups h qs key :
  (∀ u, u ∈ qs → is_Some (attr h u key)) →
  ∃ d, queryset_to_dict h qs key false = Return d ∧
       ∀ k, dict_lookup d k =
            match filter (λ u, has_key h key k u) qs with
            | [] => None
            | us => Some (VList us)
            end.
Proof.
  intros Hkeys.
  destruct (queryset_to_dict_plural_lookup h qs key [] Hkeys)
    as (d & Hd & Hlk); [done|].
  exists d. split; [exact Hd|]. intros k. by rewrite Hlk.
Qed.

Lemma queryset_to_dict_plural_groups_witness :
  ∃ d, queryset_to_dict twins [0; 1; 2] "pk" false = Return d ∧
       ∀ k, dict_lookup d k =
            match filter (λ u, has_key twins "pk" k u) [0; 1; 2] with
            | [] => None
            | us => Some (VList us)
            end.
Proof.
  apply (queryset_to_dict_plural_groups twins [0; 1; 2] "pk").
  intros u Hu. members Hu; evaluated.
Defined.

Lemma queryset_to_dict_singular_raises h pre u post key result :
  (∀ x, x ∈ pre → is_Some (attr h x key)) →
  attr h u key = None →
  queryset_to_dict_singular h (pre ++ u :: post) key result
  = Raise (AttributeError (VObj u) key).
Proof.
  intros Hpre Hu. revert result.
  induction pre as [|x pre IH]; intros result;
    cbn [app queryset_to_dict_singular]; rewrite getattr_obj.
  - by rewrite Hu.
  - destruct (Hpre x) as [kx Hx]; [left|]. rewrite Hx, outcome_bind_Return.
    apply IH. intros y Hy. apply Hpre. by right.
Qed.

Lemma queryset_to_dict_plural_raises h pre u post key result :
  (∀ x, x ∈ pre → is_Some (attr h x key)) →
  attr h u key = None →
  queryset_to_dict_plural h (pre ++ u :: post) key result
  = Raise (AttributeError (VObj u) key).
Proof.
  intros Hpre Hu. revert result.
  induction pre as [|x pre IH]; intros result;
    cbn [app queryset_to_dict_plural]; rewrite getattr_obj.
  - by rewrite Hu.
  - destruct (Hpre x) as [kx Hx]; [left|]. rewrite Hx, outcome_bind_Return.
    apply IH. intros y Hy. apply Hpre. by right.
Qed.

(** X2: in either mode, [queryset_to_dict] raises the attribute error of
    the first record that lacks the key attribute, whatever follows it. *)
Theorem queryset_to_dict_missing_key h pre u post key singular :
  (∀ x, x ∈ pre → is_Some (attr h x key)) →
  attr h u key = None →
  queryset_to_dict h (pre ++ u :: post) key singular
  = Raise (AttributeError (VObj u) key).
Proof.
  intros Hpre Hu. unfold queryset_to_dict. destruct singular.
  - by apply queryset_to_dict_singular_raises.
  - by apply queryset_to_dict_plural_raises.
Qed.

Lemma queryset_to_dict_missing_key_witness :
  queryset_to_dict keyless ([0] ++ 1 :: [2]) "pk" false
  = Raise (AttributeError (VObj 1) "pk").
Proof.
  apply (queryset_to_dict_missing_key keyless [0] 1 [2] "pk" false).
  - intros x Hx. members Hx. evaluated.
  - reflexivity.
Defined.

Lemma dict_lookup_None d k :
  dict_lookup d k = None → existsb (λ k', py_eqb k' k) d.*1 = false.
Proof.
  induction d as [|[k' v'] d IH]; [done|]. cbn [dict_lookup fmap list_fmap].
  simpl. destruct (py_eqb k' k); [done|]. exact IH.
Qed.

Lemma all_different_snoc l k :
  all_different l → existsb (λ k', py_eqb k' k) l = false →
  all_different (l ++ [k]).
Proof.
  induction l as [|v l IH]; [done|]. cbn [all_different existsb app].
  intros [Hv Hl] [Hvk Hlk]%orb_false_iff. split; [|by apply IH].
  rewrite existsb_app, Hv. simpl. by rewrite Hvk.
Qed.

Lemma dict_set_keys d k v :
  (dict_set d k v).*1 =
  match dict_lookup d k with
  | Some _ => d.*1
  | None => d.*1 ++ [k]
  end.
Proof.
  induction d as [|[k' v'] d IH]; [done|]. cbn [dict_set dict_lookup].
  destruct (py_eqb k' k); [done|]. rewrite fmap_cons, IH.
  by destruct (dict_lookup d k).
Qed.

Lemma dict_setdefault_different d k v :
  all_different d.*1 → all_different (dict_setdefault d k v).*1.
Proof.
  intros Hd. unfold dict_setdefault.
  destruct (dict_lookup d k) eqn:Hk; [done|].
  rewrite fmap_app. apply all_different_snoc; [done|].
  by apply dict_lookup_None.
Qed.

Lemma dict_append_different d k u :
  all_different d.*1 → all_different (dict_append d k u).*1.
Proof.
  intros Hd. unfold dict_append.
  assert (H : ∀ v, all_different (dict_set d k v).*1).
  { intros v. rewrite dict_set_keys.
    destruct (dict_lookup d k) eqn:Hk; [done|].
    apply all_different_snoc; [done|]. by apply dict_lookup_None. }
  destruct (dict_lookup d k) as [[| | | | |us]|]; apply H.
Qed.

Lemma queryset_to_dict_singular_keys h qs key result d :
  all_different result.*1 →
  queryset_to_dict_singular h qs key result = Return d →
  all_different d.*1.
Proof.
  revert result. induction qs as [|u qs IH]; intros result Hres;
    cbn [queryset_to_dict_singular].
  - by intros [= <-].
  - destruct (getattr h (VObj u) key) as [k|e]; [|done].
    rewrite outcome_bind_Return. apply IH.
    by apply dict_setdefault_different.
Qed.

Lemma queryset_to_dict_plural_keys h qs key result d :
  all_different result.*1 →
  queryset_to_dict_plural h qs key result = Return d →
  all_different d.*1.
Proof.
  revert result. induction qs as [|u qs IH]; intros result Hres;
    cbn [queryset_to_dict_plural].
  - by intros [= <-].
  - destruct (getattr h (VObj u) key) as [k|e]; [|done].
    rewrite outcome_bind_Return. apply IH.
    by apply dict_append_different.
Qed.

(** X3: the keys of the mapping [queryset_to_dict] returns are pairwise
    different under [==], in either mode: a key that compares equal to
    one already there never gets an entry of its own. *)
Theorem queryset_to_dict_keys_different h qs key singular d :
  queryset_to_dict h qs key singular = Return d →
  all_different d.*1.
Proof.
  unfold queryset_to_dict. destruct singular.
  - by apply queryset_to_dict_singular_keys.
  - by apply queryset_to_dict_plural_keys.
Qed.

Lemma queryset_to_dict_keys_different_witness :
  all_different [(VInt 7, VList [0; 1]); (VInt 8, VList [2])].*1.
Proof.
  apply (queryset_to_dict_keys_different twins [0; 1; 2] "pk" false).
  reflexivity.
Defined.

Lemma distinct_subset v l : v ∈ distinct l → v ∈ l.
Proof.
  induction l as [|w l IH]; [done|]. cbn [distinct].
  intros [->|Hv%list_elem_of_filter]%elem_of_cons; [left|].
  right. apply IH. by destruct Hv.
Qed.

(** X4: [distinct] returns values of its input only, every value of the
    input is [==] to one of them, and no two of them are [==]. *)
Theorem distinct_same_values l :
  (∀ v, v ∈ distinct l → v ∈ l) ∧
  (∀ k, existsb (py_eqb k) (distinct l) = existsb (py_eqb k) l) ∧
  all_different (distinct l).
Proof.
  split; [|split].
  - intros v. apply distinct_subset.
  - intros k. apply existsb_distinct.
  - apply distinct_all_different.
Qed.

(** * Further properties of [attach_foreignkey] *)

(** Whatever its outcome, the attach pass leaves the query log alone,
    creates no object, and writes the [accessor] attribute of its owners
    only. *)
Lemma attach_pass_any d objects accessor column s :
  queries (attach_pass d objects accessor column s).2 = queries s ∧
  next_ref (attach_pass d objects accessor column s).2 = next_ref s ∧
  (∀ r, r ∉ objects →
        heap (attach_pass d objects accessor column s).2 !! r
        = heap s !! r) ∧
  (∀ r a, a ≠ accessor →
          attr (heap (attach_pass d objects accessor column s).2) r a
          = attr (heap s) r a).
Proof.
  revert s. induction objects as [|o objects IH]; intros s; [done|].
  cbn [attach_pass]. rewrite M_bind_run, reading_run.
  destruct (getattr (heap s) (VObj o) column) as [v|e]; [|done].
  rewrite M_bind_run. unfold setattr.
  destruct (heap s !! o) as [attrs|] eqn:Ho; [|done].
  set (s1 := State (<[o := <[accessor := dict_get d v]> attrs]> (heap s))
                   (next_ref s) (queries s)).
  destruct (IH s1) as (Hq & Hn & Hheap & Hattr).
  split; [exact Hq|]. split; [exact Hn|]. split.
  - intros r [Hro Hr]%not_elem_of_cons. rewrite Hheap by done.
    by apply lookup_insert_ne.
  - intros r a Ha. rewrite Hattr by done. unfold s1. cbn [heap].
    rewrite (attr_insert _ _ _ _ _ _ _ Ho), decide_False; [done|].
    by intros [_ ?].
Qed.

(** The states [attach_foreignkey] can end in: the one it started from,
    the one reached by evaluating its query, or the one the attach pass
    makes of that. *)
Lemma attach_foreignkey_states db objects field related database s :
  (attach_foreignkey db objects field related database s).2 = s ∨
  ∃ vs us h' n',
    scan (heap s) objects related (r_accessor (resolve field))
         (r_column (resolve field)) = Return vs ∧
    vs ≠ [] ∧
    instantiate (selected_rows db (fetch_query field related database vs))
                (heap s) (next_ref s) = (us, h', n') ∧
    ((attach_foreignkey db objects field related database s).2
       = State h' n' (queries s ++ [fetch_query field related database vs]) ∨
     ∃ d, (attach_foreignkey db objects field related database s).2
          = (attach_pass d objects (r_accessor (resolve field))
               (r_column (resolve field))
               (State h' n'
                  (queries s ++ [fetch_query field related database vs]))).2).
Proof.
  destruct (attach_foreignkey db objects field related database s)
    as [res s'] eqn:Hrun. cbn [snd].
  unfold attach_foreignkey in Hrun. cbv zeta in Hrun.
  rewrite M_bind_run, reading_run in Hrun.
  destruct (scan (heap s) objects related (r_accessor (resolve field))
              (r_column (resolve field))) as [vs|e] eqn:Hscan;
    [|injection Hrun as _ <-; by left].
  rewrite outcome_bind_Return in Hrun.
  destruct vs as [|v vs]; [injection Hrun as _ <-; by left|].
  replace (negb (truthy (distinct (v :: vs)))) with false in Hrun by done.
  change (Query _ _ (distinct (v :: vs)) database related)
    with (fetch_query field related database (v :: vs)) in Hrun.
  set (q := fetch_query field related database (v :: vs)) in *.
  rewrite M_bind_run in Hrun. unfold evaluate in Hrun.
  destruct (lookup_attname _ _) as [attname|];
    [|injection Hrun as _ <-; by left].
  replace (negb (truthy (q_values q))) with false in Hrun by done.
  destruct (instantiate (selected_rows db q) (heap s) (next_ref s))
    as [[us h'] n'] eqn:Hinst.
  right. exists (v :: vs), us, h', n'. split; [done|]. split; [done|].
  split; [done|]. rewrite M_bind_run, reading_run in Hrun. cbn [heap] in Hrun.
  destruct (queryset_to_dict h' us (r_key (resolve field)) true) as [d|e].
  - right. exists d. unfold q in Hrun. by rewrite Hrun.
  - injection Hrun as _ <-. by left.
Qed.

(** X5: whatever its input and its outcome, [attach_foreignkey] adds at
    most one query to those evaluated, and that query asks for the
    distinct scanned values. *)
Theorem attach_foreignkey_at_most_one_query
    db objects field related database s :
  queries (attach_foreignkey db objects field related database s).2
    = queries s ∨
  ∃ vs, scan (heap s) objects related (r_accessor (resolve field))
             (r_column (resolve field)) = Return vs ∧
        vs ≠ [] ∧
        queries (attach_foreignkey db objects field related database s).2
          = queries s ++ [fetch_query field related database vs].
Proof.
  destruct (attach_foreignkey_states db objects field related database s)
    as [->|(vs & us & h' & n' & Hscan & Hvs & _ & [->|[d ->]])];
    [by left|right..]; exists vs; split; [done|split; [done|]|done|split; [done|]].
  - done.
  - by destruct (attach_pass_any d objects (r_accessor (resolve field))
                   (r_column (resolve field))
                   (State h' n'
                      (queries s
                       ++ [fetch_query field related database vs])))
      as [-> _].
Qed.

(** X6: whatever its outcome, [attach_foreignkey] changes nothing of the
    objects that existed before the call except the cache attribute of
    the owners it was given. *)
Theorem attach_foreignkey_frame db objects field related database s r :
  state_wf s →
  is_Some (heap s !! r) →
  (r ∉ objects →
   heap (attach_foreignkey db objects field related database s).2 !! r
   = heap s !! r) ∧
  (∀ a, a ≠ r_accessor (resolve field) →
        attr (heap (attach_foreignkey db objects field related database s).2)
             r a
        = attr (heap s) r a).
Proof.
  intros Hwf Hr. apply Hwf in Hr.
  destruct (attach_foreignkey_states db objects field related database s)
    as [->|(vs & us & h' & n' & _ & _ & Hinst & Hs')]; [done|].
  destruct (instantiate_spec
              (selected_rows db (fetch_query field related database vs))
              (heap s) (next_ref s)) as (h'' & Hrun & Hold & _).
  rewrite Hrun in Hinst. injection Hinst as <- <- <-.
  destruct Hs' as [->|[d ->]].
  - cbn [heap]. split; [intros _; by apply Hold|].
    intros a _. unfold attr. by rewrite Hold.
  - destruct (attach_pass_any d objects (r_accessor (resolve field))
                (r_column (resolve field))
                (State h'' (next_ref s + length (selected_rows db
                              (fetch_query field related database vs)))
                   (queries s ++ [fetch_query field related database vs])))
      as (_ & _ & Hheap & Hattr).
    split.
    + intros Hnin. rewrite Hheap by done. by apply Hold.
    + intros a Ha. rewrite Hattr by done. unfold attr. cbn [heap].
      by rewrite Hold.
Qed.

Lemma attach_foreignkey_frame_witness :
  (2 ∉ [0; 1] →
   heap (attach_foreignkey forum_db [0; 1] Post_thread [] "default"
           cached_posts).2 !! 2
   = heap cached_posts !! 2) ∧
  (∀ a, a ≠ r_accessor (resolve Post_thread) →
        attr (heap (attach_foreignkey forum_db [0; 1] Post_thread []
                      "default" cached_posts).2) 2 a
        = attr (heap cached_posts) 2 a).
Proof.
  apply (attach_foreignkey_frame forum_db [0; 1] Post_thread [] "default"
           cached_posts 2).
  - apply state_wf_decide. vm_compute. reflexivity.
  - vm_compute. eauto.
Defined.

Lemma scan_raises h pre o post related accessor column :
  (∀ x, x ∈ pre → is_Some (attr h x column)) →
  related ≠ [] ∨ ¬ already_cached h accessor o →
  attr h o column = None →
  scan h (pre ++ o :: post) related accessor column
  = Raise (AttributeError (VObj o) column).
Proof.
  intros Hpre Hscanned Ho.
  induction pre as [|x pre IH]; cbn [app scan].
  - assert (Hcond : truthy related
              || is_False (getattr_default h (VObj o) accessor (VBool false))
              = true).
    { destruct Hscanned as [Hrel|Hc].
      - by destruct related.
      - apply is_False_cached in Hc. rewrite Hc. apply orb_true_r. }
    rewrite Hcond, getattr_obj, Ho. done.
  - rewrite IH by (intros y Hy; apply Hpre; by right).
    destruct (Hpre x) as [vx Hx]; [left|].
    rewrite getattr_obj, Hx. by destruct (_ || _).
Qed.

(** X7: when the first owner that lacks the foreign-key attribute is one
    the scan reads (its slot is not cached, or [related] is given),
    [attach_foreignkey] raises its attribute error before any query and
    any write. *)
Theorem attach_foreignkey_missing_column
    db pre o post field related database s :
  (∀ x, x ∈ pre → is_Some (attr (heap s) x (r_column (resolve field)))) →
  related ≠ [] ∨ ¬ already_cached (heap s) (r_accessor (resolve field)) o →
  attr (heap s) o (r_column (resolve field)) = None →
  attach_foreignkey db (pre ++ o :: post) field related database s
  = (Raise (AttributeError (VObj o) (r_column (resolve field))), s).
Proof.
  intros Hpre Hscanned Ho. unfold attach_foreignkey. cbv zeta.
  by rewrite M_bind_run, reading_run, (scan_raises _ _ _ _ _ _ _ Hpre).
Qed.

Lemma attach_foreignkey_missing_column_witness :
  attach_foreignkey forum_db ([0] ++ 1 :: []) Post_thread [] "default"
    broken_posts
  = (Raise (AttributeError (VObj 1) (r_column (resolve Post_thread))),
     broken_posts).
Proof.
  apply (attach_foreignkey_missing_column forum_db [0] 1 [] Post_thread []
           "default" broken_posts).
  - intros x Hx. members Hx. evaluated.
  - right. intros (v & Hv & _). discriminate Hv.
  - reflexivity.
Defined.

Lemma filter_none {A} (P : A → Prop) `{!∀ x, Decision (P x)} (l : list A) :
  (∀ x, x ∈ l → ¬ P x) → filter P l = [].
Proof.
  induction l as [|x l IH]; intros Hl; [done|].
  rewrite filter_cons_False by (apply Hl; left).
  apply IH. intros y Hy. apply Hl. by right.
Qed.

Lemma attach_foreignkey_noop_run db objects field related database s :
  scan (heap s) objects related (r_accessor (resolve field))
       (r_column (resolve field)) = Return [] →
  attach_foreignkey db objects field related database s = (Return (), s).
Proof.
  intros Hscan. unfold attach_foreignkey. cbv zeta.
  by rewrite M_bind_run, reading_run, Hscan.
Qed.

(** X8: a call without [related] that succeeds leaves every owner
    cached, so repeating the call changes nothing: the two calls together
    evaluate at most one query. *)
Theorem attach_foreignkey_twice db objects field database s :
  state_wf s →
  descriptor_ok db field →
  r_accessor (resolve field) ≠ r_column (resolve field) →
  (∀ o, o ∈ objects →
        is_Some (attr (heap s) o (r_column (resolve field)))) →
  ∃ s', attach_foreignkey db objects field [] database s = (Return (), s') ∧
        attach_foreignkey db objects field [] database s' = (Return (), s') ∧
        (∀ o, o ∈ objects →
              already_cached (heap s') (r_accessor (resolve field)) o).
Proof.
  intros Hwf Hok Hne Hcols.
  pose proof (scan_spec (heap s) objects [] (r_accessor (resolve field))
                (r_column (resolve field)) Hcols) as Hscan.
  set (vs := omap _ _) in Hscan.
  assert (Hcached' : ∀ s', 
            (∀ o, o ∈ objects →
                  is_Some (attr (heap s') o (r_column (resolve field)))) →
            (∀ o, o ∈ objects →
                  already_cached (heap s') (r_accessor (resolve field)) o) →
            attach_foreignkey db objects field [] database s'
            = (Return (), s')).
  { intros s' Hcols' Hall. apply attach_foreignkey_noop_run.
    rewrite scan_spec by done. f_equal.
    rewrite filter_none; [done|].
    intros o Ho [?|Hnc]; [done|]. by apply Hnc, Hall. }
  destruct (decide (vs = [])) as [Hvs|Hvs].
  - assert (Hall : ∀ o, o ∈ objects →
              already_cached (heap s) (r_accessor (resolve field)) o).
    { intros o Ho. destruct (decide (already_cached (heap s)
                                  (r_accessor (resolve field)) o)) as [|Hnc];
        [done|exfalso].
      destruct (Hcols o Ho) as [v Hv].
      assert (Hin : v ∈ vs); [|rewrite Hvs in Hin; by apply elem_of_nil in Hin].
      apply list_elem_of_omap. exists o. split; [|done].
      apply list_elem_of_filter. split; [by right|done]. }
    exists s. split; [|split; [|done]]; by apply Hcached'.
  - destruct (attach_foreignkey_fetch db objects field [] database s vs)
      as (s' & Hrun & _ & Hframe & Hslot); try done.
    assert (Hall : ∀ o, o ∈ objects →
              already_cached (heap s') (r_accessor (resolve field)) o).
    { intros o Ho. destruct (Hcols o Ho) as [v Hv].
      specialize (Hslot o v Ho Hv).
      destruct (list_find _ _) as [[i row]|].
      - destruct Hslot as [Hs _]. eexists. split; [exact Hs|done].
      - eexists. split; [exact Hslot|done]. }
    exists s'. split; [done|]. split; [|done]. apply Hcached'; [|done].
    intros o Ho. rewrite Hframe; [by apply Hcols| |by right].
    eauto using live_below.
Qed.

Lemma attach_foreignkey_twice_witness :
  ∃ s', attach_foreignkey forum_db [0; 1; 2] Post_thread [] "default"
          plain_posts = (Return (), s') ∧
        attach_foreignkey forum_db [0; 1; 2] Post_thread [] "default" s'
          = (Return (), s') ∧
        (∀ o, o ∈ [0; 1; 2] →
              already_cached (heap s') (r_accessor (resolve Post_thread)) o).
Proof.
  apply (attach_foreignkey_twice forum_db [0; 1; 2] Post_thread "default"
           plain_posts).
  - apply state_wf_decide. vm_compute. reflexivity.
  - reflexivity.
  - discriminate.
  - intros o Ho. members Ho; evaluated.
Defined.

Lemma list_find_same {A} (P Q : A → Prop)
    `{!∀ x, Decision (P x), !∀ x, Decision (Q x)} (l : list A) :
  (∀ x, P x ↔ Q x) → list_find P l = list_find Q l.
Proof.
  intros HPQ. induction l as [|x l IH]; [done|]. rewrite !list_find_step, IH.
  destruct (decide (P x)) as [HP|HP].
  - by rewrite decide_True by (by apply HPQ).
  - by rewrite decide_False by (by rewrite <- HPQ).
Qed.

(** X9: after a call that fetches, two owners whose foreign-key values
    are [==] hold the same thing in their slots: one and the same record
    object, or [None] both. *)
Theorem attach_foreignkey_shared_record
    db objects field related database s vs o1 o2 v1 v2 :
  state_wf s →
  descriptor_ok db field →
  r_accessor (resolve field) ≠ r_column (resolve field) →
  (∀ o, o ∈ objects →
        is_Some (attr (heap s) o (r_column (resolve field)))) →
  scan (heap s) objects related (r_accessor (resolve field))
       (r_column (resolve field)) = Return vs →
  vs ≠ [] →
  o1 ∈ objects → o2 ∈ objects →
  attr (heap s) o1 (r_column (resolve field)) = Some v1 →
  attr (heap s) o2 (r_column (resolve field)) = Some v2 →
  py_eqb v1 v2 = true →
  ∃ s', attach_foreignkey db objects field related database s
          = (Return (), s') ∧
        attr (heap s') o1 (r_accessor (resolve field))
        = attr (heap s') o2 (r_accessor (resolve field)).
Proof.
  intros Hwf Hok Hne Hcols Hscan Hvs Ho1 Ho2 Hv1 Hv2 Heq.
  destruct (attach_foreignkey_fetch db objects field related database s vs)
    as (s' & Hrun & _ & _ & Hslot); try done.
  exists s'. split; [exact Hrun|].
  pose proof (Hslot o1 v1 Ho1 Hv1) as H1.
  pose proof (Hslot o2 v2 Ho2 Hv2) as H2.
  rewrite (list_find_same
             (λ row, row_has_key (r_key (resolve field)) v1 row)
             (λ row, row_has_key (r_key (resolve field)) v2 row)) in H1.
  - destruct (list_find _ _) as [[i row]|].
    + destruct H1 as [-> _], H2 as [-> _]. done.
    + by rewrite H1, H2.
  - intros row. unfold row_has_key.
    destruct (row !! r_key (resolve field)) as [k|]; [|done].
    by rewrite (py_eqb_compat_r v1 v2 k Heq).
Qed.

Lemma attach_foreignkey_shared_record_witness :
  ∃ s', attach_foreignkey forum_db [0; 1; 2] Post_thread [] "default"
          shared_posts = (Return (), s') ∧
        attr (heap s') 0 (r_accessor (resolve Post_thread))
        = attr (heap s') 2 (r_accessor (resolve Post_thread)).
Proof.
  apply (attach_foreignkey_shared_record forum_db [0; 1; 2] Post_thread []
           "default" shared_posts [VInt 1; VNone; VInt 1] 0 2
           (VInt 1) (VInt 1)).
  - apply state_wf_decide. vm_compute. reflexivity.
  - reflexivity.
  - discriminate.
  - intros o Ho. members Ho; evaluated.
  - reflexivity.
  - discriminate.
  - left.
  - right. right. left.
  - reflexivity.
  - reflexivity.
  - reflexivity.
Defined.

(** X10: after a call that fetches, the slot of an owner holds [None] or
    a record created by the call from a row of the related table whose
    key is not null and [==] to the owner's foreign-key value. *)
Theorem attach_foreignkey_attached_matches
    db objects field related database s vs o v :
  state_wf s →
  descriptor_ok db field →
  r_accessor (resolve field) ≠ r_column (resolve field) →
  (∀ o, o ∈ objects →
        is_Some (attr (heap s) o (r_column (resolve field)))) →
  scan (heap s) objects related (r_accessor (resolve field))
       (r_column (resolve field)) = Return vs →
  vs ≠ [] →
  o ∈ objects →
  attr (heap s) o (r_column (resolve field)) = Some v →
  ∃ s', attach_foreignkey db objects field related database s
          = (Return (), s') ∧
        (attr (heap s') o (r_accessor (resolve field)) = Some VNone ∨
         ∃ r row,
           attr (heap s') o (r_accessor (resolve field)) = Some (VObj r) ∧
           heap s !! r = None ∧
           heap s' !! r = Some row ∧
           row ∈ db_rows db database (r_model (resolve field)) related ∧
           row_matches (r_key (resolve field)) v row = true).
Proof.
  intros Hwf Hok Hne Hcols Hscan Hvs Ho Hv.
  destruct (attach_foreignkey_fetch db objects field related database s vs)
    as (s' & Hrun & _ & _ & Hslot); try done.
  exists s'. split; [exact Hrun|]. specialize (Hslot o v Ho Hv).
  destruct (list_find _ _) as [[i row]|] eqn:Hfind; [|by left].
  right. destruct Hslot as [Hs Hr].
  apply list_find_Some in Hfind as (Hi & Hkey & _).
  apply list_elem_of_lookup_2 in Hi.
  destruct (selected_rows_keyed db (fetch_query field related database vs)
              (r_key (resolve field)) row Hok Hi) as (k & Hk & Hnn & _).
  exists (next_ref s + i), row. split; [done|]. split; [|split; [done|split]].
  - apply eq_None_not_Some. intros Hsome. apply Hwf in Hsome. lia.
  - by apply list_elem_of_filter in Hi as [_ Hi].
  - rewrite (row_has_key_matches _ _ _ _ Hk Hnn). by apply Is_true_true.
Qed.

Lemma attach_foreignkey_attached_matches_witness :
  ∃ s', attach_foreignkey forum_db [0; 1; 2] Post_thread [] "default"
          plain_posts = (Return (), s') ∧
        (attr (heap s') 1 (r_accessor (resolve Post_thread)) = Some VNone ∨
         ∃ r row,
           attr (heap s') 1 (r_accessor (resolve Post_thread))
             = Some (VObj r) ∧
           heap plain_posts !! r = None ∧
           heap s' !! r = Some row ∧
           row ∈ db_rows forum_db "default" (r_model (resolve Post_thread))
                         [] ∧
           row_matches (r_key (resolve Post_thread)) (VInt 2) row = true).
Proof.
  apply (attach_foreignkey_attached_matches forum_db [0; 1; 2] Post_thread []
           "default" plain_posts [VInt 1; VInt 2; VInt 3] 1 (VInt 2)).
  - apply state_wf_decide. vm_compute. reflexivity.
  - reflexivity.
  - discriminate.
  - intros o Ho. members Ho; evaluated.
  - reflexivity.
  - discriminate.
  - right. left.
  - reflexivity.
Defined.

(** X11: after a call that fetches, an owner whose foreign-key value is
    [None] holds [None] in its slot, whatever the table contains. *)
Theorem attach_foreignkey_null_key
    db objects field related database s vs o :
  state_wf s →
  descriptor_ok db field →
  r_accessor (resolve field) ≠ r_column (resolve field) →
  (∀ o, o ∈ objects →
        is_Some (attr (heap s) o (r_column (resolve field)))) →
  scan (heap s) objects related (r_accessor (resolve field))
       (r_column (resolve field)) = Return vs →
  vs ≠ [] →
  o ∈ objects →
  attr (heap s) o (r_column (resolve field)) = Some VNone →
  ∃ s', attach_foreignkey db objects field related database s
          = (Return (), s') ∧
        attr (heap s') o (r_accessor (resolve field)) = Some VNone.
Proof.
  intros Hwf Hok Hne Hcols Hscan Hvs Ho Hv.
  destruct (attach_foreignkey_fetch db objects field related database s vs)
    as (s' & Hrun & _ & _ & Hslot); try done.
  exists s'. split; [exact Hrun|]. specialize (Hslot o VNone Ho Hv).
  rewrite (no_match_selected db (fetch_query field related database vs)
             (r_key (resolve field)) VNone Hok) in Hslot; [done|].
  intros row _. unfold row_matches, sql_in.
  by destruct (row !! r_key (resolve field)) as [[]|].
Qed.

Lemma attach_foreignkey_null_key_witness :
  ∃ s', attach_foreignkey forum_db [0; 1; 2] Post_thread [] "default"
          shared_posts = (Return (), s') ∧
        attr (heap s') 1 (r_accessor (resolve Post_thread)) = Some VNone.
Proof.
  apply (attach_foreignkey_null_key forum_db [0; 1; 2] Post_thread []
           "default" shared_posts [VInt 1; VNone; VInt 1] 1).
  - apply state_wf_decide. vm_compute. reflexivity.
  - reflexivity.
  - discriminate.
  - intros o Ho. members Ho; evaluated.
  - reflexivity.
  - discriminate.
  - right. left.
  - reflexivity.
Defined.

(** * Further properties of [attach_foreignkeys] *)

Lemma collect_nothing h object_sets related m model :
  (∀ g, g ∈ object_sets → f_rel_to g.2 = m) →
  (∀ m0, model = Some m0 → m0 = m) →
  (∀ g, g ∈ object_sets →
        scan h g.1 related (cache_attr g.2) (f_column g.2) = Return []) →
  ∃ model', collect h object_sets related model [] = Return (model', []).
Proof.
  revert model.
  induction object_sets as [|[objects field] rest IH];
    intros model Hsame Hmodel Hscans.
  - by exists model.
  - assert (Hm : f_rel_to field = m) by (apply (Hsame (objects, field)); left).
    destruct (IH (Some m)) as [model' Hrun].
    { intros g Hg. apply Hsame. by right. }
    { by intros m0 [= <-]. }
    { intros g Hg. apply Hscans. by right. }
    exists model'. cbn [collect].
    pose proof (Hscans (objects, field)) as Hscan. cbn [fst snd] in Hscan.
    rewrite Hscan by left.
    destruct model as [m0|].
    + rewrite (Hmodel m0 eq_refl), Hm, decide_False by auto.
      by rewrite !outcome_bind_Return.
    + by rewrite Hm, !outcome_bind_Return.
Qed.

(** X12: when all the groups reference the same model and no scan finds
    a value (every owner is cached, or there is no owner at all),
    [attach_foreignkeys] returns without a query and without a write. *)
Theorem attach_foreignkeys_nothing_to_fetch
    db object_sets related database s m :
  (∀ g, g ∈ object_sets → f_rel_to g.2 = m) →
  (∀ g, g ∈ object_sets →
        scan (heap s) g.1 related (cache_attr g.2) (f_column g.2)
        = Return []) →
  attach_foreignkeys db object_sets related database s = (Return (), s).
Proof.
  intros Hsame Hscans.
  destruct (collect_nothing (heap s) object_sets related m None Hsame)
    as [model' Hrun]; [done|done|].
  unfold attach_foreignkeys. by rewrite M_bind_run, reading_run, Hrun.
Qed.

Lemma attach_foreignkeys_nothing_to_fetch_witness :
  attach_foreignkeys forum_db [([0], thread_field); ([], thread_field)] []
    "default" cached_posts = (Return (), cached_posts).
Proof.
  apply (attach_foreignkeys_nothing_to_fetch forum_db
           [([0], thread_field); ([], thread_field)] [] "default"
           cached_posts Thread).
  - intros g Hg. members Hg; reflexivity.
  - intros g Hg. members Hg; reflexivity.
Defined.

Lemma attach_sets_any d object_sets s :
  queries (attach_sets d object_sets s).2 = queries s.
Proof.
  revert s. induction object_sets as [|[objects field] rest IH]; intros s;
    [done|].
  cbn [attach_sets]. rewrite M_bind_run.
  destruct (attach_pass_any d objects (cache_attr field) (f_column field) s)
    as [Hq _].
  destruct (attach_pass d objects (cache_attr field) (f_column field) s)
    as [[[]|e] s1]; cbn [snd] in *; [|done].
  by rewrite IH.
Qed.

(** X13: whatever its input and its outcome, [attach_foreignkeys] adds at
    most one query to those evaluated: a [pk__in] query on the given
    connection with the given nested relations. *)
Theorem attach_foreignkeys_at_most_one_query
    db object_sets related database s :
  queries (attach_foreignkeys db object_sets related database s).2
    = queries s ∨
  ∃ model values,
    queries (attach_foreignkeys db object_sets related database s).2
    = queries s ++ [Query model "pk" values database related].
Proof.
  destruct (attach_foreignkeys db object_sets related database s)
    as [res s'] eqn:Hrun. cbn [snd].
  unfold attach_foreignkeys in Hrun.
  rewrite M_bind_run, reading_run in Hrun.
  destruct (collect (heap s) object_sets related None [])
    as [[model values]|e]; [|injection Hrun as _ <-; by left].
  destruct (negb (truthy values)) eqn:Hvalues;
    [injection Hrun as _ <-; by left|].
  destruct model as [model|]; [|injection Hrun as _ <-; by left].
  rewrite M_bind_run in Hrun. unfold evaluate in Hrun.
  cbn [q_model q_lookup q_values q_using q_related] in Hrun.
  destruct (lookup_attname _ _) as [attname|];
    [|injection Hrun as _ <-; by left].
  rewrite Hvalues in Hrun.
  destruct (instantiate _ (heap s) (next_ref s)) as [[us h'] n'].
  rewrite M_bind_run, reading_run in Hrun. cbn [heap] in Hrun.
  right. exists model, values.
  destruct (queryset_to_dict h' us "pk" true) as [d|e].
  - pose proof (attach_sets_any d object_sets
                  (State h' n'
                     (queries s
                      ++ [Query model "pk" values database related])))
      as Hq.
    rewrite Hrun in Hq. exact Hq.
  - by injection Hrun as _ <-.
Qed.

(** The lookup table [attach_foreignkeys] builds, and the slots it
    fills from it. *)
Lemma attach_foreignkeys_table
    db object_sets related database s m g0 vs0 :
  state_wf s →
  (∀ g, g ∈ object_sets → f_rel_to g.2 = m) →
  (∀ g g', g ∈ object_sets → g' ∈ object_sets →
           cache_attr g.2 ≠ f_column g'.2) →
  (∀ g g', g ∈ object_sets → g' ∈ object_sets →
           cache_attr g.2 = cache_attr g'.2 → f_column g.2 = f_column g'.2) →
  (∀ g o, g ∈ object_sets → o ∈ g.1 →
          is_Some (attr (heap s) o (f_column g.2))) →
  g0 ∈ object_sets →
  scan (heap s) g0.1 related (cache_attr g0.2) (f_column g0.2) = Return vs0 →
  vs0 ≠ [] →
  ∃ d s',
    attach_foreignkeys db object_sets related database s = (Return (), s') ∧
    ∀ g o v, g ∈ object_sets → o ∈ g.1 →
             attr (heap s) o (f_column g.2) = Some v →
             attr (heap s') o (cache_attr g.2) = Some (dict_get d v).
Proof.
  intros Hwf Hsame Hdisj Hcolumn Hcols Hg0 Hscan0 Hvs0.
  destruct (collect_same (heap s) object_sets related m None [] Hsame)
    as (model' & values & Hcollect & _ & Hmodel & _ & Hmem);
    [done|done|].
  assert (Hvalues : negb (truthy values) = false).
  { destruct vs0 as [|v vs0]; [done|].
    destruct values as [|w values]; [|done].
    assert (existsb (py_eqb v) [] = true); [|done].
    apply Hmem. right. exists g0, (v :: vs0). split; [done|]. split; [done|].
    cbn [existsb]. by rewrite py_eqb_refl. }
  rewrite Hmodel in Hcollect
    by (intros ->; by apply elem_of_nil in Hg0).
  destruct (fetch_table db (Query m "pk" values database related) "pk" s
              Hwf eq_refl)
    as (qs & s1 & d & Hev & Hd & _ & Hold & _).
  { cbn [q_values]. by destruct values. }
  assert (Hattr1 : ∀ r a, r < next_ref s →
            attr (heap s1) r a = attr (heap s) r a).
  { intros r a Hr. unfold attr. by rewrite Hold. }
  destruct (attach_sets_spec d object_sets s1 Hdisj Hcolumn)
    as (s' & Hrun & _ & _ & _ & _ & Hset).
  { intros g o Hg Ho. rewrite Hattr1 by eauto using live_below.
    by apply Hcols. }
  exists d, s'. split.
  - unfold attach_foreignkeys.
    rewrite M_bind_run, reading_run, Hcollect, Hvalues.
    by rewrite M_bind_run, Hev, M_bind_run, reading_run, Hd.
  - intros g o v Hg Ho Hv. apply Hset; [done..|].
    rewrite Hattr1 by eauto using live_below. done.
Qed.

(** X14: after a call of [attach_foreignkeys] that fetches, two owners
    with [==] foreign-key values hold the same thing in their slots,
    also when they belong to different groups: one and the same record
    object, or [None] both. *)
Theorem attach_foreignkeys_shared_record
    db object_sets related database s m g0 vs0 g1 g2 o1 o2 v1 v2 :
  state_wf s →
  (∀ g, g ∈ object_sets → f_rel_to g.2 = m) →
  (∀ g g', g ∈ object_sets → g' ∈ object_sets →
           cache_attr g.2 ≠ f_column g'.2) →
  (∀ g g', g ∈ object_sets → g' ∈ object_sets →
           cache_attr g.2 = cache_attr g'.2 → f_column g.2 = f_column g'.2) →
  (∀ g o, g ∈ object_sets → o ∈ g.1 →
          is_Some (attr (heap s) o (f_column g.2))) →
  g0 ∈ object_sets →
  scan (heap s) g0.1 related (cache_attr g0.2) (f_column g0.2) = Return vs0 →
  vs0 ≠ [] →
  g1 ∈ object_sets → o1 ∈ g1.1 →
  g2 ∈ object_sets → o2 ∈ g2.1 →
  attr (heap s) o1 (f_column g1.2) = Some v1 →
  attr (heap s) o2 (f_column g2.2) = Some v2 →
  py_eqb v1 v2 = true →
  ∃ s', attach_foreignkeys db object_sets related database s
          = (Return (), s') ∧
        attr (heap s') o1 (cache_attr g1.2)
        = attr (heap s') o2 (cache_attr g2.2).
Proof.
  intros Hwf Hsame Hdisj Hcolumn Hcols Hg0 Hscan0 Hvs0
         Hg1 Ho1 Hg2 Ho2 Hv1 Hv2 Heq.
  destruct (attach_foreignkeys_table db object_sets related database s m
              g0 vs0) as (d & s' & Hrun & Hslot); try done.
  exists s'. split; [exact Hrun|].
  rewrite (Hslot g1 o1 v1), (Hslot g2 o2 v2) by done.
  unfold dict_get. by rewrite (dict_lookup_compat d v1 v2 Heq).
Qed.

Lemma attach_foreignkeys_shared_record_witness :
  ∃ s', attach_foreignkeys forum_db
          [([0; 1], thread_field); ([2], thread_field)] [] "default"
          shared_posts = (Return (), s') ∧
        attr (heap s') 0 (cache_attr (([0; 1], thread_field)).2)
        = attr (heap s') 2 (cache_attr (([2], thread_field)).2).
Proof.
  apply (attach_foreignkeys_shared_record forum_db
           [([0; 1], thread_field); ([2], thread_field)] [] "default"
           shared_posts Thread ([0; 1], thread_field) [VInt 1; VNone]
           ([0; 1], thread_field) ([2], thread_field) 0 2 (VInt 1) (VInt 1)).
  - apply state_wf_decide. vm_compute. reflexivity.
  - intros g Hg. members Hg; reflexivity.
  - intros g g' Hg Hg'. members Hg; members Hg'; discriminate.
  - intros g g' Hg Hg' _. members Hg; members Hg'; reflexivity.
  - intros g o Hg Ho. members Hg; simpl in Ho; members Ho; evaluated.
  - left.
  - reflexivity.
  - discriminate.
  - left.
  - left.
  - right. left.
  - left.
  - reflexivity.
  - reflexivity.
  - reflexivity.
Defined.

(** * Further properties of [attach_profile] *)

Lemma str_split_length c s : length (str_split c s) = S (count_char c s).
Proof.
  induction s as [|c' s IH]; [done|]. cbn [str_split count_char].
  destruct (Ascii.eqb c' c); cbn [length]; [by rewrite IH|].
  destruct (str_split c s) as [|w ws]; [done|]. exact IH.
Qed.

Lemma str_split_undotted c s : count_char c s = 0 → str_split c s = [s].
Proof.
  induction s as [|c' s IH]; [done|]. cbn [str_split count_char].
  destruct (Ascii.eqb c' c); [done|]. intros Hs. by rewrite IH.
Qed.

Lemma str_split_dotted c a b :
  count_char c a = 0 → count_char c b = 0 →
  str_split c (a +:+ String c b) = [a; b].
Proof.
  intros Ha Hb. induction a as [|c' a IH].
  - change ("" +:+ String c b) with (String c b). cbn [str_split].
    by rewrite Ascii.eqb_refl, str_split_undotted.
  - cbn [count_char] in Ha.
    change (String c' a +:+ String c b) with (String c' (a +:+ String c b)).
    cbn [str_split]. destruct (Ascii.eqb c' c); [done|]. by rewrite IH.
Qed.

Lemma attach_profile_unresolved db settings get_model users s e :
  profile_model settings get_model = Raise e →
  attach_profile db settings get_model users s = (Raise e, s).
Proof.
  intros He. unfold attach_profile. by rewrite M_bind_run, reading_run, He.
Qed.

(** X15: when [AUTH_PROFILE_MODULE] is not set, is empty, or does not
    hold exactly one dot, [attach_profile] raises
    [SiteProfileNotAvailable] without asking for a model, evaluating a
    query or touching a user. *)
Theorem attach_profile_bad_setting db settings get_model users s :
  AUTH_PROFILE_MODULE settings = None ∨
  (∃ name, AUTH_PROFILE_MODULE settings = Some name ∧
           (name = "" ∨ count_char "."%char name ≠ 1)) →
  attach_profile db settings get_model users s
  = (Raise SiteProfileNotAvailable, s).
Proof.
  intros Hbad. apply attach_profile_unresolved. unfold profile_model.
  destruct Hbad as [->|(name & -> & Hname)]; [done|].
  destruct name as [|c name]; [done|].
  destruct Hname as [Hempty|Hdots]; [done|].
  pose proof (str_split_length "."%char (String c name)) as Hlen.
  destruct (str_split "."%char (String c name)) as [|a [|b [|x l]]];
    try done.
  cbn [length] in Hlen. congruence.
Qed.

Lemma attach_profile_bad_setting_witness :
  attach_profile forum_db {| AUTH_PROFILE_MODULE := Some "accounts" |}
    forum_get_model [0; 1] two_users
  = (Raise SiteProfileNotAvailable, two_users).
Proof.
  apply (attach_profile_bad_setting forum_db
           {| AUTH_PROFILE_MODULE := Some "accounts" |} forum_get_model
           [0; 1] two_users).
  right. exists "accounts". split; [reflexivity|]. right. discriminate.
Defined.

(** X16: when the setting names [app_label.model_name] and [get_model]
    returns [None] or raises [ImportError] or [ImproperlyConfigured],
    [attach_profile] raises [SiteProfileNotAvailable], again before any
    query and any write. *)
Theorem attach_profile_model_unavailable
    db settings get_model users s app_label model_name :
  AUTH_PROFILE_MODULE settings
  = Some (app_label +:+ String "."%char model_name) →
  count_char "."%char app_label = 0 →
  count_char "."%char model_name = 0 →
  get_model app_label model_name = Return None ∨
  get_model app_label model_name = Raise ImportError ∨
  get_model app_label model_name = Raise ImproperlyConfigured →
  attach_profile db settings get_model users s
  = (Raise SiteProfileNotAvailable, s).
Proof.
  intros Hset Happ Hmod Hget. apply attach_profile_unresolved.
  unfold profile_model. rewrite Hset.
  pose proof (str_split_dotted "."%char app_label model_name Happ Hmod)
    as Hsplit.
  destruct (app_label +:+ String "."%char model_name) as [|c name] eqn:Hname.
  { by destruct app_label. }
  rewrite Hsplit. by destruct Hget as [->|[->| ->]].
Qed.

Lemma attach_profile_model_unavailable_witness :
  attach_profile forum_db forum_settings (λ _ _, Raise ImportError) [0; 1]
    two_users
  = (Raise SiteProfileNotAvailable, two_users).
Proof.
  apply (attach_profile_model_unavailable forum_db forum_settings
           (λ _ _, Raise ImportError) [0; 1] two_users "accounts" "Profile").
  - reflexivity.
  - reflexivity.
  - reflexivity.
  - right. left. reflexivity.
Defined.

(** The loop of [attach_profile] when every user has an entry in
    [profiles]: each user ends with its entry, and each entry's [user]
    points back at a user that holds it. *)
Lemma profile_pass_ok profiles users s :
  (∀ x, x ∈ users →
        ∃ pk r, attr (heap s) x "pk" = Some pk ∧
                dict_get profiles pk = VObj r ∧ is_Some (heap s !! r)) →
  ∃ s', profile_pass profiles users s = (Return (), s') ∧
        queries s' = queries s ∧
        (∀ r, is_Some (heap s' !! r) ↔ is_Some (heap s !! r)) ∧
        (∀ r a, a ≠ "_profile_cache" → a ≠ "user" →
                attr (heap s') r a = attr (heap s) r a) ∧
        (∀ r, r ∉ users →
              attr (heap s') r "_profile_cache"
              = attr (heap s) r "_profile_cache") ∧
        (∀ r, (∀ x pk, x ∈ users → attr (heap s) x "pk" = Some pk →
                       dict_get profiles pk ≠ VObj r) →
              attr (heap s') r "user" = attr (heap s) r "user") ∧
        (∀ x pk, x ∈ users → attr (heap s) x "pk" = Some pk →
                 attr (heap s') x "_profile_cache"
                 = Some (dict_get profiles pk)) ∧
        (∀ x pk r, x ∈ users → attr (heap s) x "pk" = Some pk →
                   dict_get profiles pk = VObj r →
                   ∃ x', x' ∈ users ∧
                         attr (heap s') r "user" = Some (VObj x') ∧
                         attr (heap s') x' "_profile_cache"
                         = Some (VObj r)).
Proof.
  revert s. induction users as [|x users IH]; intros s Hall.
  - exists s. repeat split; try done.
    + intros x pk Hx. by apply elem_of_nil in Hx.
    + intros x pk r Hx. by apply elem_of_nil in Hx.
  - destruct (Hall x) as (pk & r & Hpk & Hget & Hr); [left|].
    destruct (attr_Some_heap _ _ _ _ Hpk) as (attrs & Hlive & _).
    destruct (setattr_spec x "_profile_cache" (VObj r) s)
      as (s1 & Hset1 & _ & Hq1 & Hdom1 & Hattr1); [eauto|].
    destruct (setattr_spec r "user" (VObj x) s1)
      as (s2 & Hset2 & _ & Hq2 & Hdom2 & Hattr2); [by apply Hdom1|].
    assert (Hpk2 : ∀ y, attr (heap s2) y "pk" = attr (heap s) y "pk").
    { intros y. rewrite Hattr2, decide_False by (by intros [_ ?]).
      rewrite Hattr1, decide_False by (by intros [_ ?]). done. }
    destruct (IH s2)
      as (s' & Hrun & Hq & Hdom & Hframe & Hcache & Huser & Hslots & Hback).
    { intros y Hy. destruct (Hall y) as (pk' & r' & Hpk' & Hget' & Hr');
        [by right|].
      exists pk', r'. rewrite Hpk2. split; [done|]. split; [done|].
      by apply Hdom2, Hdom1. }
    assert (Hslots' : ∀ y pk', y ∈ x :: users →
              attr (heap s) y "pk" = Some pk' →
              attr (heap s') y "_profile_cache"
              = Some (dict_get profiles pk')).
    { intros y pk' Hy Hpk'.
      destruct (decide (y ∈ users)) as [Hin|Hnin].
      - apply Hslots; [done|]. by rewrite Hpk2.
      - apply elem_of_cons in Hy as [->|?]; [|done].
        rewrite Hcache by done.
        rewrite Hattr2, decide_False by (by intros [_ ?]).
        rewrite Hattr1, decide_True by done. congruence. }
    exists s'.
    split; [|split; [congruence|split; [|split; [|split; [|split;
      [|split; [exact Hslots'|]]]]]]].
    + cbn [profile_pass].
      rewrite M_bind_run, reading_run, getattr_obj, Hpk, Hget.
      rewrite M_bind_run, Hset1, M_bind_run, reading_run, getattr_obj, Hattr1.
      rewrite decide_True by done.
      rewrite M_bind_run, Hset2. exact Hrun.
    + intros y. by rewrite Hdom, Hdom2, Hdom1.
    + intros y a Ha Ha'. rewrite Hframe by done.
      rewrite Hattr2, decide_False by (by intros [_ ?]).
      rewrite Hattr1, decide_False by (by intros [_ ?]). done.
    + intros y [Hyx Hy]%not_elem_of_cons. rewrite Hcache by done.
      rewrite Hattr2, decide_False by (by intros [_ ?]).
      rewrite Hattr1, decide_False by (by intros [? _]). done.
    + intros r0 Hnone. rewrite Huser.
      * rewrite Hattr2, decide_False.
        -- rewrite Hattr1, decide_False by (by intros [_ ?]). done.
        -- intros [-> _]. by apply (Hnone x pk); [left|..].
      * intros y pk' Hy Hpk'. rewrite Hpk2 in Hpk'.
        apply (Hnone y pk'); [by right|done].
    + intros y pk' r' Hy Hpk' Hget'.
      destruct (decide (Exists
                  (λ z, attr (heap s) z "pk" ≫= (λ k, Some (dict_get profiles k))
                        = Some (VObj r')) users)) as [Hlater|Hnone].
      * apply Exists_exists in Hlater as (z & Hz & Hzr).
        destruct (attr (heap s) z "pk") as [pkz|] eqn:Hpkz; [|done].
        simpl in Hzr. injection Hzr as Hzr.
        destruct (Hback z pkz r') as (x' & Hx' & Hu' & Hc'); [done| |done|].
        { by rewrite Hpk2. }
        exists x'. split; [by right|done].
      * assert (Hyx : y = x ∧ r' = r).
        { apply elem_of_cons in Hy as [->|Hy].
          - split; [done|]. congruence.
          - exfalso. apply Hnone. apply Exists_exists. exists y.
            split; [done|]. rewrite Hpk'. simpl. by rewrite Hget'. }
        destruct Hyx as [-> ->]. exists x. split; [left|]. split.
        -- rewrite Huser.
           ++ by rewrite Hattr2, decide_True.
           ++ intros z pkz Hz Hpkz Hzr. apply Hnone.
              apply Exists_exists. exists z. split; [done|].
              rewrite Hpk2 in Hpkz. rewrite Hpkz. simpl. by rewrite Hzr.
        -- rewrite (Hslots' x pk) by (left || done). by rewrite Hget.
Qed.

(** X17: when the profile model resolves, there is at least one user and
    every user has a profile row, [attach_profile] returns the users it
    was given after exactly one query, for their distinct primary keys.
    Each user then holds a record created by the call whose key is [==]
    to the user's primary key, and the [user] of that record points back
    at a user that holds this very record. *)
Theorem attach_profile_attaches
    db settings get_model model users s :
  state_wf s →
  profile_model settings get_model = Return model →
  users ≠ [] →
  (∀ x, x ∈ users → has_profile db model (heap s) x = true) →
  ∃ s', attach_profile db settings get_model users s = (Return users, s') ∧
        queries s'
        = queries s
          ++ [Query model "pk"
                (distinct (omap (λ x, attr (heap s) x "pk") users))
                "default" []] ∧
        ∀ x, x ∈ users →
             ∃ pk r k x',
               attr (heap s) x "pk" = Some pk ∧
               attr (heap s') x "_profile_cache" = Some (VObj r) ∧
               heap s !! r = None ∧
               attr (heap s') r "pk" = Some k ∧
               py_eqb k pk = true ∧
               x' ∈ users ∧
               attr (heap s') r "user" = Some (VObj x') ∧
               attr (heap s') x' "_profile_cache" = Some (VObj r).
Proof.
  intros Hwf Hmodel Husers Hprof.
  assert (Hpks : ∀ x, x ∈ users → is_Some (attr (heap s) x "pk")).
  { intros x Hx. specialize (Hprof x Hx). unfold has_profile in Hprof.
    destruct (attr (heap s) x "pk"); [eauto|done]. }
  set (pks := omap (λ x, attr (heap s) x "pk") users).
  set (q := Query model "pk" (distinct pks) "default" []).
  destruct (fetch_table db q "pk" s Hwf eq_refl)
    as (qs & s1 & d & Hev & Hd & Hq1 & Hold & Htable).
  { cbn [q q_values]. destruct users as [|x0 users0]; [done|].
    destruct (Hpks x0) as [pk0 Hpk0]; [left|].
    unfold pks. simpl. by rewrite Hpk0. }
  assert (Hpk1 : ∀ x, x ∈ users →
            attr (heap s1) x "pk" = attr (heap s) x "pk").
  { intros x Hx. unfold attr. rewrite Hold; [done|].
    eauto using live_below. }
  assert (Hfetched : ∀ x pk, x ∈ users → attr (heap s) x "pk" = Some pk →
            ∃ i row k, dict_get d pk = VObj (next_ref s + i) ∧
                       heap s1 !! (next_ref s + i) = Some row ∧
                       row !! "pk" = Some k ∧ py_eqb k pk = true).
  { intros x pk Hx Hpk. specialize (Hprof x Hx).
    unfold has_profile in Hprof. rewrite Hpk in Hprof.
    apply existsb_exists in Hprof as (row0 & Hrow0 & Hm0).
    destruct (list_find_elem_of (λ row, row_matches "pk" pk row)
                (db_rows db "default" model []) row0) as [[j row] Hfind];
      [by apply list_elem_of_In|by rewrite Hm0|].
    destruct (first_match_selected db q "pk" pk j row eq_refl)
      as [i Hi]; [|exact Hfind|].
    { cbn [q q_values]. rewrite existsb_distinct.
      eapply existsb_py_eqb_elem; [|apply py_eqb_refl].
      apply list_elem_of_omap. eauto. }
    specialize (Htable pk). rewrite Hi in Htable. destruct Htable as [Hg Hr].
    apply list_find_Some in Hi as (_ & Hkey & _).
    unfold row_has_key in Hkey.
    destruct (row !! "pk") as [k|] eqn:Hk; [|done].
    exists i, row, k. split; [done|]. split; [done|]. split; [done|].
    by apply Is_true_true. }
  destruct (profile_pass_ok d users s1)
    as (s' & Hrun & Hq' & _ & Hframe & _ & _ & Hslots & Hback).
  { intros x Hx. destruct (Hpks x Hx) as [pk Hpk].
    destruct (Hfetched x pk Hx Hpk) as (i & row & k & Hg & Hr & _).
    exists pk, (next_ref s + i). rewrite Hpk1 by done. eauto. }
  exists s'. split; [|split].
  - unfold attach_profile.
    rewrite M_bind_run, reading_run, Hmodel.
    rewrite M_bind_run, reading_run, (pk_list_spec _ _ Hpks).
    change (Query model "pk" _ "default" []) with q.
    rewrite M_bind_run, Hev, M_bind_run, reading_run, Hd.
    by rewrite M_bind_run, Hrun.
  - by rewrite Hq', Hq1.
  - intros x Hx. destruct (Hpks x Hx) as [pk Hpk].
    destruct (Hfetched x pk Hx Hpk) as (i & row & k & Hg & Hr & Hk & Hkpk).
    destruct (Hback x pk (next_ref s + i)) as (x' & Hx' & Huser & Hcache);
      [done|by rewrite Hpk1|done|].
    exists pk, (next_ref s + i), k, x'.
    split; [done|]. split; [|split; [|split; [|split; [done|done]]]].
    + rewrite (Hslots x pk) by (done || by rewrite Hpk1). by rewrite Hg.
    + apply eq_None_not_Some. intros Hsome. apply Hwf in Hsome. lia.
    + rewrite Hframe by done. unfold attr. by rewrite Hr.
Qed.

Lemma attach_profile_attaches_witness :
  ∃ s', attach_profile forum_db forum_settings forum_get_model [0] two_users
          = (Return [0], s') ∧
        queries s'
        = queries two_users
          ++ [Query Profile "pk"
                (distinct (omap (λ x, attr (heap two_users) x "pk") [0]))
                "default" []] ∧
        ∀ x, x ∈ [0] →
             ∃ pk r k x',
               attr (heap two_users) x "pk" = Some pk ∧
               attr (heap s') x "_profile_cache" = Some (VObj r) ∧
               heap two_users !! r = None ∧
               attr (heap s') r "pk" = Some k ∧
               py_eqb k pk = true ∧
               x' ∈ [0] ∧
               attr (heap s') r "user" = Some (VObj x') ∧
               attr (heap s') x' "_profile_cache" = Some (VObj r).
Proof.
  apply (attach_profile_attaches forum_db forum_settings forum_get_model
           Profile [0] two_users).
  - apply state_wf_decide. vm_compute. reflexivity.
  - reflexivity.
  - discriminate.
  - intros x Hx. members Hx. reflexivity.
Defined.

(** * The two modes of [queryset_to_dict] together *)

Lemma find_head_filter {A} (p : A → bool) (l : list A) :
  List.find p l = head (filter (λ x, p x) l).
Proof.
  induction l as [|x l IH]; [done|]. cbn [List.find].
  destruct (p x) eqn:Hp.
  - by rewrite filter_cons_True by (by rewrite Hp).
  - by rewrite filter_cons_False by (rewrite Hp; intros []).
Qed.

Lemma dict_lookup_keys d1 d2 k :
  d1.*1 = d2.*1 →
  dict_lookup d1 k = None ↔ dict_lookup d2 k = None.
Proof.
  revert d2. induction d1 as [|[k1 v1] d1 IH]; intros [|[k2 v2] d2]; try done.
  rewrite !fmap_cons. intros [= -> Hkeys]. cbn [dict_lookup].
  destruct (py_eqb k2 k); [done|]. by apply IH.
Qed.

Lemma queryset_to_dict_modes_keys h qs key rs rp ds dp :
  rs.*1 = rp.*1 →
  queryset_to_dict_singular h qs key rs = Return ds →
  queryset_to_dict_plural h qs key rp = Return dp →
  ds.*1 = dp.*1.
Proof.
  revert rs rp. induction qs as [|u qs IH]; intros rs rp Hkeys;
    cbn [queryset_to_dict_singular queryset_to_dict_plural].
  - by intros [= <-] [= <-].
  - destruct (getattr h (VObj u) key) as [k|e]; [|done].
    rewrite !outcome_bind_Return. apply IH.
    unfold dict_setdefault, dict_append.
    pose proof (dict_lookup_keys rs rp k Hkeys) as Hnone.
    assert (Hset : ∀ v, (dict_set rp k v).*1 =
              match dict_lookup rs k with
              | Some _ => rs.*1
              | None => rs.*1 ++ [k]
              end).
    { intros v. rewrite dict_set_keys, Hkeys.
      destruct (dict_lookup rs k), (dict_lookup rp k); try done.
      - discriminate (proj2 Hnone eq_refl).
      - discriminate (proj1 Hnone eq_refl). }
    transitivity (match dict_lookup rs k with
                  | Some _ => rs.*1
                  | None => rs.*1 ++ [k]
                  end).
    + destruct (dict_lookup rs k); [done|]. by rewrite fmap_app.
    + symmetry. destruct (dict_lookup rp k) as [[| | | | |us]|]; apply Hset.
Qed.

(** X18: on the same input the two modes agree: they have the same keys
    in the same order, and the record the singular mapping holds for a
    key is the first of the list the plural mapping holds for it. *)
Theorem queryset_to_dict_modes_agree h qs key :
  (∀ u, u ∈ qs → is_Some (attr h u key)) →
  ∃ ds dp,
    queryset_to_dict h qs key true = Return ds ∧
    queryset_to_dict h qs key false = Return dp ∧
    ds.*1 = dp.*1 ∧
    ∀ k, dict_lookup ds k =
         match dict_lookup dp k with
         | Some (VList (u :: _)) => Some (VObj u)
         | _ => None
         end.
Proof.
  intros Hkeys.
  destruct (queryset_to_dict_singular_lookup h qs key [] Hkeys)
    as (ds & Hds & Hs).
  destruct (queryset_to_dict_plural_lookup h qs key [] Hkeys)
    as (dp & Hdp & Hp); [done|].
  exists ds, dp. split; [exact Hds|]. split; [exact Hdp|]. split.
  - by apply (queryset_to_dict_modes_keys h qs key [] []).
  - intros k. rewrite Hs, Hp. cbn [dict_lookup].
    rewrite find_head_filter.
    by destruct (filter _ qs).
Qed.

Lemma queryset_to_dict_modes_agree_witness :
  ∃ ds dp,
    queryset_to_dict twins [0; 1; 2] "pk" true = Return ds ∧
    queryset_to_dict twins [0; 1; 2] "pk" false = Return dp ∧
    ds.*1 = dp.*1 ∧
    ∀ k, dict_lookup ds k =
         match dict_lookup dp k with
         | Some (VList (u :: _)) => Some (VObj u)
         | _ => None
         end.
Proof.
  apply (queryset_to_dict_modes_agree twins [0; 1; 2] "pk").
  intros u Hu. members Hu; evaluated.
Defined.
